(** * cuvis::aux::spectral — spectra and histograms of hyperspectral cubes

    A shallow embedding of [auxiliary/include/cuvis_spectral.hpp]:
    [get_mat_datatype], [get_spectrum_polygon] and [get_histogram].

    Conventions of the embedding.
    - [double] is IEEE binary64, i.e. Rocq's primitive [float]; every [+], [*],
      [/] and [sqrt] of the source on doubles is the primitive operation.
    - A C++ expression that throws or whose behaviour the language leaves
      undefined yields an explicit [outcome]: [InvalidArgument] for
      [std::invalid_argument], [Undefined] for signed overflow in the
      element product, integer division by zero and a read through a null
      table pointer.
    - [image_t] is declared in cuvis.hpp; its extents are integers ([Z]) and
      its two pointers are read as functions of the element offset.  Pixel
      coordinates and offsets are integers as well: the conversion
      [double -> int] keeps the integer part, [std::round] gives the nearest
      integer, and the arithmetic on them is exact.
    - The [assert]s at the head of the two functions state preconditions and
      compute nothing; they appear as hypotheses of the theorems
      ([spectrum_preconditions], [histogram_preconditions]).
    - OpenCV ([cv::fillPoly], [cv::calcHist], [cv::minMaxLoc]) is outside the
      repository.  The rasterisation rule of [cv::fillPoly] and the bucket
      rule of [cv::calcHist] are parameters of the model; the counts that
      [cv::calcHist] delivers are kept as integers (it stores them as 32-bit
      floats, exact up to 2^24 per bucket). *)

From Stdlib Require Import ZArith List Bool Lia Floats String.
From Stdlib Require Import Reals Lra.
From stdpp Require Import base list.

Local Open Scope Z_scope.

(** ** Outcomes of a C++ evaluation *)

Inductive outcome (A : Type) : Type :=
| Ok (a : A)
| InvalidArgument (what : string)
| Undefined.

Arguments Ok {A} a.
Arguments InvalidArgument {A} what.
Arguments Undefined {A}.

#[export] Instance outcome_bind : MBind outcome := fun A B k c =>
  match c with
  | Ok a => k a
  | InvalidArgument what => InvalidArgument what
  | Undefined => Undefined
  end.

#[export] Instance outcome_ret : MRet outcome := fun A a => Ok a.

(** [for (auto x : xs) body] over a state threaded through the iterations. *)
Fixpoint for_each {A S : Type} (xs : list A) (body : A -> S -> outcome S) (s : S)
  : outcome S :=
  match xs with
  | [] => Ok s
  | x :: xs' => s' ← body x s; for_each xs' body s'
  end.

(** [for (int i = 0; i < n; i++)] ranges over [range n]. *)
Definition range (n : Z) : list Z := seqZ 0 n.

(** ** Doubles *)

Module Double.

(** Conversion of an integer to [double] (round to nearest, ties to even). *)
Definition of_Z (z : Z) : float :=
  SF2Prim (binary_normalize prec emax z 0 false).

(** The magnitude [m * 2^e] of a finite double, cut to its integer part. *)
Definition magnitude_trunc (m : positive) (e : Z) : Z :=
  if 0 <=? e then Z.shiftl (Zpos m) e else Z.shiftr (Zpos m) (- e).

(** The magnitude [m * 2^e] rounded to the nearest integer, halves upwards. *)
Definition magnitude_round (m : positive) (e : Z) : Z :=
  if 0 <=? e then Z.shiftl (Zpos m) e
  else Z.shiftr (Zpos m + Z.shiftl 1 (- e - 1)) (- e).

(** Conversion [double -> int]: the fractional part is discarded.  The
    conversion is defined by C++ for values whose integer part fits the
    destination; the model returns the integer part of every finite value
    and 0 for NaN and the infinities. *)
Definition to_int (f : float) : Z :=
  match Prim2SF f with
  | S754_finite s m e =>
      if s then - magnitude_trunc m e else magnitude_trunc m e
  | _ => 0
  end.

(** [std::round] followed by the conversion to an integer: nearest integer,
    halfway cases away from zero. *)
Definition round (f : float) : Z :=
  match Prim2SF f with
  | S754_finite s m e =>
      if s then - magnitude_round m e else magnitude_round m e
  | _ => 0
  end.

(** Conversion [double -> float] (binary32), the value again held in a
    double. *)
Definition to_float (f : float) : float :=
  match Prim2SF f with
  | S754_finite s m e =>
      SF2Prim (binary_normalize 24 128 (if s then Zneg m else Zpos m) e s)
  | _ => f
  end.

End Double.

(** ** Arithmetic the statistics are written in

    The mean and the deviation of [get_spectrum_polygon] use [+ - * / sqrt]
    and the conversion of the counter.  They are written once over this
    interface; the program runs them on doubles, and the same text read over
    the real numbers is the exact-arithmetic formula. *)

Class Arith (F : Type) := {
  f_add : F -> F -> F;
  f_sub : F -> F -> F;
  f_mul : F -> F -> F;
  f_div : F -> F -> F;
  f_sqrt : F -> F;
  f_of_Z : Z -> F
}.

#[export] Instance double_arith : Arith float := {
  f_add := PrimFloat.add;
  f_sub := PrimFloat.sub;
  f_mul := PrimFloat.mul;
  f_div := PrimFloat.div;
  f_sqrt := PrimFloat.sqrt;
  f_of_Z := Double.of_Z
}.

#[export] Instance real_arith : Arith R := {
  f_add := Rplus;
  f_sub := Rminus;
  f_mul := Rmult;
  f_div := Rdiv;
  f_sqrt := R_sqrt.sqrt;
  f_of_Z := IZR
}.

(** [double mean = sum_v[z] / n;] *)
Definition mean_of {F : Type} `{Arith F} (sum : F) (n : Z) : F :=
  f_div sum (f_of_Z n).

(** [sqrt((sq_sum_v[z] - 2 * sum_v[z] * mean) / n + mean * mean)] *)
Definition std_of {F : Type} `{Arith F} (sum sq_sum : F) (n : Z) : F :=
  let mean := mean_of sum n in
  f_sqrt (f_add (f_div (f_sub sq_sum (f_mul (f_mul (f_of_Z 2) sum) mean)) (f_of_Z n))
                (f_mul mean mean)).

(** ** Element types

    [data_t] enters the code through [std::is_floating_point], [std::is_signed]
    and [sizeof] (in [get_mat_datatype]), through [std::numeric_limits] (in
    [get_histogram]) and through its arithmetic (in [get_spectrum_polygon]). *)

Record type_traits := {
  is_floating_point : bool;
  is_signed : bool;
  sizeof : Z
}.

Class data_type (data_t : Type) := {
  traits : type_traits;
  (** [double(std::numeric_limits<data_t>::max())] *)
  numeric_max : float;
  (** the implicit conversion of an element to [double] *)
  to_double : data_t -> float;
  (** [loc_val * loc_val] converted to [double]: the product is taken in
      the type the usual arithmetic conversions give to [data_t] *)
  square : data_t -> outcome float
}.

Definition INT_MAX : Z := 2147483647.

(** [std::uint8_t]: promoted to [int]; 255 * 255 fits. *)
Record uint8_t := u8 { u8_value : Z }.

(** The product of two [int] operands: defined when it fits [int]. *)
Definition int_mul (a b : Z) : outcome Z :=
  if (- INT_MAX - 1 <=? a * b) && (a * b <=? INT_MAX) then Ok (a * b) else Undefined.

#[export] Instance uint8_data : data_type uint8_t := {
  traits := {| is_floating_point := false; is_signed := false; sizeof := 1 |};
  numeric_max := Double.of_Z 255;
  to_double := fun v => Double.of_Z (u8_value v);
  square := fun v => p ← int_mul (u8_value v) (u8_value v); Ok (Double.of_Z p)
}.

(** [std::uint16_t]: promoted to [int] as well, so the product of two
    elements is a signed 32-bit product; it overflows from 46341 * 46341 on. *)
Record uint16_t := u16 { u16_value : Z }.

#[export] Instance uint16_data : data_type uint16_t := {
  traits := {| is_floating_point := false; is_signed := false; sizeof := 2 |};
  numeric_max := Double.of_Z 65535;
  to_double := fun v => Double.of_Z (u16_value v);
  square := fun v => p ← int_mul (u16_value v) (u16_value v); Ok (Double.of_Z p)
}.

(** [float]: a binary32 value, held in a double; the product is rounded to
    binary32 before it is widened. *)
Record float_t := f32 { f32_value : float }.

#[export] Instance float_data : data_type float_t := {
  traits := {| is_floating_point := true; is_signed := true; sizeof := 4 |};
  numeric_max := 0x1.fffffep+127%float;
  to_double := f32_value;
  square := fun v => Ok (Double.to_float (f32_value v * f32_value v)%float)
}.

(** ** get_mat_datatype *)

(** Depth codes and [CV_MAKETYPE] of opencv2/core/hal/interface.h. *)
Definition CV_8U : Z := 0.
Definition CV_8S : Z := 1.
Definition CV_16U : Z := 2.
Definition CV_16S : Z := 3.
Definition CV_32S : Z := 4.
Definition CV_32F : Z := 5.
Definition CV_64F : Z := 6.
Definition CV_16F : Z := 7.
Definition CV_CN_SHIFT : Z := 3.
Definition CV_DEPTH_MAX : Z := Z.shiftl 1 CV_CN_SHIFT.
Definition CV_MAKETYPE (depth cn : Z) : Z :=
  Z.land depth (CV_DEPTH_MAX - 1) + Z.shiftl (cn - 1) CV_CN_SHIFT.

Definition get_mat_datatype (t : type_traits) (channel_count : Z) : outcome Z :=
  if (channel_count <? 1) || (511 <? channel_count) then
    InvalidArgument "Invalid channel count"
  else if negb (is_floating_point t) then
    if negb (is_signed t) then
      match sizeof t with
      | 1 => Ok (CV_MAKETYPE CV_8U channel_count)
      | 2 => Ok (CV_MAKETYPE CV_16U channel_count)
      | _ => InvalidArgument "Invalid bitdepth for unsigned integer data type"
      end
    else
      match sizeof t with
      | 1 => Ok (CV_MAKETYPE CV_8S channel_count)
      | 2 => Ok (CV_MAKETYPE CV_16S channel_count)
      | 4 => Ok (CV_MAKETYPE CV_32S channel_count)
      | _ => InvalidArgument "Invalid bitdepth for signed integer data type"
      end
  else
    match sizeof t with
    | 2 => Ok (CV_MAKETYPE CV_16F channel_count)
    | 4 => Ok (CV_MAKETYPE CV_32F channel_count)
    | 8 => Ok (CV_MAKETYPE CV_64F channel_count)
    | _ => InvalidArgument "Invalid bitdepth for floating point data type"
    end.

(** The element category the traits select, and the widths the mapper
    accepts for it. *)
Inductive category := Unsigned_integer | Signed_integer | Floating_point.

Definition category_of (t : type_traits) : category :=
  if is_floating_point t then Floating_point
  else if is_signed t then Signed_integer
  else Unsigned_integer.

Definition supported_width (c : category) (bytes : Z) : Prop :=
  match c with
  | Unsigned_integer => bytes = 1 \/ bytes = 2
  | Signed_integer => bytes = 1 \/ bytes = 2 \/ bytes = 4
  | Floating_point => bytes = 2 \/ bytes = 4 \/ bytes = 8
  end.

Definition fails_with_invalid_argument {A : Type} (c : outcome A) : Prop :=
  exists what, c = InvalidArgument what.

(** ** Data of the spectral helpers *)

(** [image_t<data_t>] (declared in cuvis.hpp): extents, the wavelength table
    ([None] is the null pointer) and the element buffer, both read by offset. *)
Record image_t (data_t : Type) := {
  _width : Z;
  _height : Z;
  _channels : Z;
  _wavelength : option (Z -> Z);
  _data : Z -> data_t
}.

Arguments _width {data_t} _.
Arguments _height {data_t} _.
Arguments _channels {data_t} _.
Arguments _wavelength {data_t} _.
Arguments _data {data_t} _ _.

Record spectral_mean_t := {
  wavelength : Z;
  value : float;
  std : float
}.

(** A value-initialised [spectral_mean_t]: the wavelength is zeroed, the two
    doubles take their default member initialisers. *)
Definition default_spectral_mean : spectral_mean_t :=
  {| wavelength := 0; value := (-999)%float; std := 0%float |}.

Abbreviation spectrum_t := (list spectral_mean_t) (only parsing).

Record point_t := {
  _x : float;
  _y : float
}.

Abbreviation polygon_t := (list point_t) (only parsing).

(** [cv::Point]: a pair of [int]s, x first. *)
Definition cv_Point := (Z * Z)%type.

(** [cv::Point(double, double)] through the constructor [Point_(int, int)]:
    both arguments undergo the implicit conversion [double -> int]. *)
Definition make_cv_Point (x y : float) : cv_Point :=
  (Double.to_int x, Double.to_int y).

(** A single-channel 8-bit matrix, read as [mask.at<uint8_t>(y, x)]. *)
Definition mask_t := Z -> Z -> Z.

Definition Mat_zeros : mask_t := fun _ _ => 0.

(** [img._wavelength[z]] *)
Definition read_wavelength {data_t : Type} (img : image_t data_t) (z : Z) : outcome Z :=
  match _wavelength img with
  | Some table => Ok (table z)
  | None => Undefined
  end.

(** Offset of channel [z] of pixel [(x, y)]. *)
Definition offset {data_t : Type} (img : image_t data_t) (x y z : Z) : Z :=
  (y * _width img + x) * _channels img + z.

#[export] Instance float_inhabited : Inhabited float := populate 0%float.
#[export] Instance spectral_mean_inhabited : Inhabited spectral_mean_t :=
  populate default_spectral_mean.

(** ** get_spectrum_polygon *)

Section Spectrum.

(** The pixels that [cv::fillPoly] paints for the given contours in a matrix
    of [cols] x [rows] (arguments: cols, rows, contours, y, x). *)
Variable fill_region : Z -> Z -> list (list cv_Point) -> Z -> Z -> bool.

Context {data_t : Type} `{data_type data_t}.

(** [cv::fillPoly(mask, vpts, cv::Scalar(color))]: the painted pixels take
    the colour, the others keep their value. *)
Definition fillPoly (cols rows : Z) (mask : mask_t) (vpts : list (list cv_Point))
    (color : Z) : mask_t :=
  fun y x => if fill_region cols rows vpts y x then color else mask y x.

(** The vertices in absolute pixel coordinates. *)
Definition transformed_pt (img : image_t data_t) (poly : polygon_t) : list cv_Point :=
  map (fun pt => make_cv_Point (_x pt * Double.of_Z (_width img - 1))%float
                               (_y pt * Double.of_Z (_height img - 1))%float) poly.

Definition polygon_mask (img : image_t data_t) (poly : polygon_t) : mask_t :=
  fillPoly (_width img) (_height img) Mat_zeros [transformed_pt img poly] 255.

(** State of the accumulation: [n], [sum_v], [sq_sum_v]. *)
Definition sums_t := (Z * list float * list float)%type.

(** Body of the loop over [z] for one pixel inside the mask. *)
Definition add_sample (img : image_t data_t) (x y z : Z) (s : list float * list float)
  : outcome (list float * list float) :=
  let '(sum_v, sq_sum_v) := s in
  let loc_val := _data img (offset img x y z) in
  sq ← square loc_val;
  Ok (<[Z.to_nat z := (sum_v !!! Z.to_nat z + to_double loc_val)%float]> sum_v,
      <[Z.to_nat z := (sq_sum_v !!! Z.to_nat z + sq)%float]> sq_sum_v).

(** Body of the loop over [y] for one column [x]. *)
Definition visit_pixel (img : image_t data_t) (mask : mask_t) (x y : Z) (s : sums_t)
  : outcome sums_t :=
  let '(n, sum_v, sq_sum_v) := s in
  if 128 <? mask y x then
    let n := n + 1 in
    '(sum_v, sq_sum_v) ←
      for_each (range (_channels img)) (add_sample img x y) (sum_v, sq_sum_v);
    Ok (n, sum_v, sq_sum_v)
  else Ok s.

(** "checking all pixels in polygon mask" *)
Definition accumulate (img : image_t data_t) (mask : mask_t) : outcome sums_t :=
  for_each (range (_width img))
    (fun x => for_each (range (_height img)) (visit_pixel img mask x))
    (0, replicate (Z.to_nat (_channels img)) 0%float,
        replicate (Z.to_nat (_channels img)) 0%float).

(** Body of the loop that turns the sums into mean and deviation. *)
Definition set_statistics (img : image_t data_t) (s : sums_t) (z : Z) (res : spectrum_t)
  : outcome spectrum_t :=
  let '(n, sum_v, sq_sum_v) := s in
  let mean := mean_of (sum_v !!! Z.to_nat z) n in
  let deviation := std_of (sum_v !!! Z.to_nat z) (sq_sum_v !!! Z.to_nat z) n in
  loc_wl ← read_wavelength img z;
  Ok (<[Z.to_nat z := {| wavelength := loc_wl; value := mean; std := deviation |}]> res).

(** Body of the loop of the single point case. *)
Definition set_point_value (img : image_t data_t) (pt : point_t) (z : Z) (res : spectrum_t)
  : outcome spectrum_t :=
  let y_shift := Double.round (_y pt * Double.of_Z (_height img - 1))%float * _width img in
  let xy_shift := y_shift + Double.round (_x pt * Double.of_Z (_width img - 1))%float in
  let loc_val := to_double (_data img (xy_shift * _channels img + z)) in
  loc_wl ← read_wavelength img z;
  Ok (<[Z.to_nat z := {| wavelength := loc_wl; value := loc_val;
                          std := std default_spectral_mean |}]> res).

(** "check if out of range" *)
Definition out_of_range (pt : point_t) : bool :=
  (1 <? _x pt)%float || (_x pt <? 0)%float || (1 <? _y pt)%float || (_y pt <? 0)%float.

Definition get_spectrum_polygon (img : image_t data_t) (poly : polygon_t)
  : outcome spectrum_t :=
  let res := replicate (Z.to_nat (_channels img)) default_spectral_mean in
  if (1 <? length poly)%nat then
    (* polygon case *)
    let mask := polygon_mask img poly in
    s ← accumulate img mask;
    for_each (range (_channels img)) (set_statistics img s) res
  else if (length poly =? 1)%nat then
    (* single point case *)
    match poly with
    | front :: _ =>
        if out_of_range front then Ok res
        else for_each (range (_channels img)) (set_point_value img front) res
    | [] => Ok res
    end
  else
    (* poly is empty *)
    Ok res.

End Spectrum.

(** ** get_histogram *)

(** [cuvis_processing_mode_t] (declared in the C header of the SDK). *)
Inductive cuvis_processing_mode_t :=
| Preview
| Cube_Raw
| Cube_DarkSubtract
| Cube_Reflectance
| Cube_SpectralRadiance.

(** [proc_mode == Cube_Reflectance] *)
Definition is_Cube_Reflectance (m : cuvis_processing_mode_t) : bool :=
  match m with
  | Cube_Reflectance => true
  | _ => false
  end.

Record histogram_t := {
  h_wavelength : Z;
  h_count : list float;
  h_occurrence : list Z
}.

Abbreviation histogram_vector_t := (list histogram_t) (only parsing).

(** The larger of the maximum so far and the next value. *)
Definition running_max (m v : float) : float := if (m <? v)%float then v else m.

(** [a / b] on integers; a zero divisor is undefined. *)
Definition int_div (a b : Z) : outcome Z :=
  if b =? 0 then Undefined else Ok (Z.quot a b).

(** The channels of the group [count]. *)
Definition group_channels (img_channels_per_wlbin count : Z) : list Z :=
  (fun c => c + count * img_channels_per_wlbin) <$> range img_channels_per_wlbin.

#[export] Instance histogram_inhabited : Inhabited histogram_t :=
  populate {| h_wavelength := 0; h_count := []; h_occurrence := [] |}.

Section Histogram.

(** The bucket [cv::calcHist] selects for a sample in a uniform histogram
    of [histSize] buckets over the range from [lo] to [hi] (arguments:
    histSize, lo, hi, sample); [None] when it selects none. *)
Variable bucket_of : Z -> float -> float -> float -> option Z.

Context {data_t : Type} `{data_type data_t}.

(** [cv::minMaxLoc(mat, nullptr, &max_val, nullptr, nullptr)] over the
    [W * H * C] elements of the cube. *)
Definition minMaxLoc_max (img : image_t data_t) : float :=
  fold_left (fun m i => running_max m (to_double (_data img i)))
            (seqZ 1 (_width img * _height img * _channels img - 1))
            (to_double (_data img 0)).

(** One sample arrives: its bucket, when it lies in the histogram, is
    incremented. *)
Definition count_sample (histSize : Z) (lo hi : float) (hist : list Z) (v : float)
  : list Z :=
  match bucket_of histSize lo hi v with
  | Some idx =>
      if (0 <=? idx) && (idx <? histSize)
      then <[Z.to_nat idx := hist !!! Z.to_nat idx + 1]> hist
      else hist
  | None => hist
  end.

(** The samples of one channel, pixel after pixel. *)
Definition channel_samples (img : image_t data_t) (channel : Z) : list float :=
  (fun p => to_double (_data img (p * _channels img + channel)))
    <$> range (_width img * _height img).

(** [cv::calcHist(&mat, 1, {channel}, cv::Mat(), hist, 1, {histSize},
    {{lo, hi}}, true, accumulate)] *)
Definition calcHist (img : image_t data_t) (channel : Z) (hist : list Z)
    (histSize : Z) (lo hi : float) (accumulate : bool) : list Z :=
  let start := if accumulate then hist else replicate (Z.to_nat histSize) 0 in
  fold_left (count_sample histSize lo hi) (channel_samples img channel) start.

(** "Accumulate histograms per channel" for the group [count]. *)
Definition accumulate_group (img : image_t data_t) (count_bins : Z) (max_val : float)
    (img_channels_per_wlbin count : Z) : list Z :=
  fold_left
    (fun hist c =>
       calcHist img (c + count * img_channels_per_wlbin) hist count_bins
                0%float (Double.to_float max_val) (negb (c =? 0)))
    (range img_channels_per_wlbin) [].

(** The x-axis label of bucket [idx], stored as [std::float_t]. *)
Definition bucket_label (proc_mode : cuvis_processing_mode_t) (bin_size : float)
    (idx : Z) : float :=
  if is_Cube_Reflectance proc_mode
  then Double.to_float ((Double.of_Z idx * bin_size) / 100)%float
  else Double.to_float (Double.of_Z idx * bin_size)%float.

(** "Transfer histogram counts & set x-axis labels" *)
Definition transfer (proc_mode : cuvis_processing_mode_t) (bin_size : float)
    (hist : list Z) (idx : Z) (s : list Z * list float)
  : outcome (list Z * list float) :=
  let '(occurrence, count) := s in
  Ok (<[Z.to_nat idx := hist !!! Z.to_nat idx]> occurrence,
      <[Z.to_nat idx := bucket_label proc_mode bin_size idx]> count).

(** Body of the loop over the groups. *)
Definition append_histogram (img : image_t data_t) (count_bins : Z) (max_val bin_size : float)
    (img_channels_per_wlbin : Z) (proc_mode : cuvis_processing_mode_t)
    (count : Z) (output : histogram_vector_t) : outcome histogram_vector_t :=
  let hist := accumulate_group img count_bins max_val img_channels_per_wlbin count in
  let total := Z.of_nat (length hist) in
  wl ← read_wavelength img
         (count * img_channels_per_wlbin + Z.quot img_channels_per_wlbin 2);
  '(occurrence, label) ←
    for_each (range total) (transfer proc_mode bin_size hist)
             (replicate (Z.to_nat total) 0, replicate (Z.to_nat total) 0%float);
  Ok (output ++ [{| h_wavelength := wl; h_count := label; h_occurrence := occurrence |}]).

(** [max_val] of [get_histogram]. *)
Definition maximum_value (img : image_t data_t) (detect_max_value : bool) : float :=
  if detect_max_value then minMaxLoc_max img else numeric_max.

Definition get_histogram (img : image_t data_t)
    (histogram_min_size count_bins wavelength_bins : Z) (detect_max_value : bool)
    (proc_mode : cuvis_processing_mode_t) : outcome histogram_vector_t :=
  mat_datatype ← get_mat_datatype traits (_channels img);
  let max_val := maximum_value img detect_max_value in
  let bin_size := (max_val / Double.of_Z count_bins)%float in
  let wlbin_size := (Double.of_Z (_channels img) / Double.of_Z wavelength_bins)%float in
  let img_channels_per_wlbin := Double.to_int wlbin_size in
  histogram_count ← int_div (_channels img) img_channels_per_wlbin;
  for_each (range histogram_count)
    (append_histogram img count_bins max_val bin_size img_channels_per_wlbin proc_mode)
    [].

(** The samples of the group [count], channel after channel. *)
Definition group_samples (img : image_t data_t) (img_channels_per_wlbin count : Z)
  : list float :=
  channel ← group_channels img_channels_per_wlbin count;
  channel_samples img channel.

(** A sample is counted when it has a bucket of the histogram. *)
Definition counted (histSize : Z) (lo hi : float) (v : float) : bool :=
  match bucket_of histSize lo hi v with
  | Some idx => (0 <=? idx) && (idx <? histSize)
  | None => false
  end.

(** The histogram of the group [count], in closed form. *)
Definition histogram_of_group (img : image_t data_t) (count_bins : Z)
    (max_val bin_size : float) (img_channels_per_wlbin : Z)
    (proc_mode : cuvis_processing_mode_t) (table : Z -> Z) (count : Z) : histogram_t :=
  let hist := accumulate_group img count_bins max_val img_channels_per_wlbin count in
  {| h_wavelength := table (count * img_channels_per_wlbin + img_channels_per_wlbin / 2);
     h_count := bucket_label proc_mode bin_size <$> range (Z.of_nat (length hist));
     h_occurrence := hist |}.

End Histogram.

(** [(int)(double(C) / double(wavelength_bins))] agrees with the integer
    quotient; checked for one pair. *)
Definition quotient_agrees (C wavelength_bins : Z) : bool :=
  Double.to_int (Double.of_Z C / Double.of_Z wavelength_bins)%float =? C / wavelength_bins.

(** Sum of the occurrences of a histogram. *)
Definition total_occurrence (h : histogram_t) : Z := foldr Z.add 0 (h_occurrence h).

(** ** Preconditions *)

(** The four [assert]s of [get_spectrum_polygon]. *)
Definition spectrum_preconditions {data_t : Type} (img : image_t data_t) : Prop :=
  _width img > 1 /\ _height img > 1 /\ _channels img > 0 /\ _wavelength img <> None.

(** The two [assert]s of [get_histogram]; the extents are sizes. *)
Definition histogram_preconditions {data_t : Type} (img : image_t data_t)
    (histogram_min_size : Z) : Prop :=
  0 <= _width img /\ 0 <= _height img /\ 0 <= histogram_min_size /\
  _height img * _width img * _channels img > histogram_min_size /\
  _wavelength img <> None.

(** A coordinate within [0, 1], and one outside. *)
Definition in_unit_interval (c : float) : Prop :=
  (0 <=? c)%float = true /\ (c <=? 1)%float = true.

Definition outside_unit_interval (c : float) : Prop :=
  (c <? 0)%float = true \/ (1 <? c)%float = true.

(** The Spectrum of [C] default entries. *)
Definition sentinel_spectrum {data_t : Type} (img : image_t data_t) : spectrum_t :=
  replicate (Z.to_nat (_channels img)) default_spectral_mean.

(** ** Sums over the pixels of a region *)

(** The pixels in the order the loops of [get_spectrum_polygon] visit them:
    column after column. *)
Definition pixels {data_t : Type} (img : image_t data_t) : list (Z * Z) :=
  x ← range (_width img); (fun y => (x, y)) <$> range (_height img).

(** A mask value exceeds half of the maximum intensity 255. *)
Definition exceeds_half_maximum (m : Z) : bool := 255 <? 2 * m.

(** The pixels of the image whose mask value exceeds half of the maximum. *)
Definition inside_pixels {data_t : Type} (img : image_t data_t) (mask : mask_t)
  : list (Z * Z) :=
  List.filter (fun p => exceeds_half_maximum (mask p.2 p.1)) (pixels img).

(** [loc_val * loc_val] as a double, where the product is defined. *)
Definition squared {data_t : Type} `{data_type data_t} (v : data_t) : float :=
  match square v with
  | Ok q => q
  | _ => 0%float
  end.

(** Sum of the values, and of the squared values, of channel [z] over the
    pixels [ps], added up from the left. *)
Definition channel_sum {data_t : Type} `{data_type data_t} (img : image_t data_t)
    (ps : list (Z * Z)) (z : Z) : float :=
  fold_left (fun acc p => (acc + to_double (_data img (offset img p.1 p.2 z)))%float)
            ps 0%float.

Definition channel_sq_sum {data_t : Type} `{data_type data_t} (img : image_t data_t)
    (ps : list (Z * Z)) (z : Z) : float :=
  fold_left (fun acc p => (acc + squared (_data img (offset img p.1 p.2 z)))%float)
            ps 0%float.

(** Every element product at the pixels [ps] is defined. *)
Definition products_defined {data_t : Type} `{data_type data_t} (img : image_t data_t)
    (ps : list (Z * Z)) : bool :=
  forallb (fun p =>
             forallb (fun z => match square (_data img (offset img p.1 p.2 z)) with
                               | Ok _ => true
                               | _ => false
                               end)
                     (range (_channels img)))
          ps.

(** The entry of channel [z] computed from the pixels [ps]. *)
Definition statistics_of {data_t : Type} `{data_type data_t} (img : image_t data_t)
    (table : Z -> Z) (ps : list (Z * Z)) (z : Z) : spectral_mean_t :=
  {| wavelength := table z;
     value := mean_of (channel_sum img ps z) (Z.of_nat (length ps));
     std := std_of (channel_sum img ps z) (channel_sq_sum img ps z)
                   (Z.of_nat (length ps)) |}.

(** ** Exact arithmetic *)

Definition sum_R (xs : list R) : R := foldr Rplus 0%R xs.

(** The population standard deviation [sqrt(sum((x - m)^2) / n)] of a
    sample, [m] its mean. *)
Definition population_std (xs : list R) : R :=
  let n := INR (length xs) in
  let m := (sum_R xs / n)%R in
  R_sqrt.sqrt (sum_R ((fun x => ((x - m) * (x - m))%R) <$> xs) / n).

(** ** Rules and inputs used in the examples *)

(** A rasterisation rule: the pixels of the matrix within the bounding box of
    a contour.  For an axis-parallel rectangle these are the pixels
    [cv::fillPoly] paints. *)
Definition in_bounding_box (contour : list cv_Point) (y x : Z) : bool :=
  match contour with
  | [] => false
  | (x0, y0) :: rest =>
      (fold_left (fun m p => Z.min m (fst p)) rest x0 <=? x) &&
      (x <=? fold_left (fun m p => Z.max m (fst p)) rest x0) &&
      (fold_left (fun m p => Z.min m (snd p)) rest y0 <=? y) &&
      (y <=? fold_left (fun m p => Z.max m (snd p)) rest y0)
  end.

Definition fill_box (cols rows : Z) (vpts : list (list cv_Point)) (y x : Z) : bool :=
  (0 <=? x) && (x <? cols) && (0 <=? y) && (y <? rows) &&
  existsb (fun contour => in_bounding_box contour y x) vpts.

(** [cvFloor]: the largest integer not above a finite double. *)
Definition cvFloor (f : float) : option Z :=
  match Prim2SF f with
  | S754_zero _ => Some 0
  | S754_finite s m e =>
      let t := Double.magnitude_trunc m e in
      let integral := (0 <=? e) || (Z.shiftl t (- e) =? Zpos m) in
      Some (if s then (if integral then - t else - t - 1) else t)
  | _ => None
  end.

(** The bucket rule of OpenCV's uniform histograms: with
    [t = histSize / (hi - lo)] the sample [v] selects [cvFloor(v * t - t * lo)],
    so that the lower bound of the range is inclusive and the upper bound
    exclusive. *)
Definition cv_uniform_bucket (histSize : Z) (lo hi v : float) : option Z :=
  let t := (Double.of_Z histSize / (hi - lo))%float in
  cvFloor (v * t + (- t) * lo)%float.

(** The polygon around the whole normalised image. *)
Definition unit_square : polygon_t :=
  [ {| _x := 0; _y := 0 |}; {| _x := 1; _y := 0 |};
    {| _x := 1; _y := 1 |}; {| _x := 0; _y := 1 |} ]%float.

(** A cube of 4 x 4 pixels and 2 channels of unsigned 8-bit values: 100 in
    channel 0, 200 in channel 1; wavelengths 500 and 510. *)
Definition cube_4x4x2 : image_t uint8_t :=
  {| _width := 4; _height := 4; _channels := 2;
     _wavelength := Some (fun z => 500 + 10 * z);
     _data := fun i => if Z.even i then u8 100 else u8 200 |}.

(** A cube of 2 x 2 pixels and 1 channel of unsigned 16-bit values, every
    pixel at the largest value. *)
Definition cube_saturated : image_t uint16_t :=
  {| _width := 2; _height := 2; _channels := 1;
     _wavelength := Some (fun z => 500 + 10 * z);
     _data := fun _ => u16 65535 |}.

(** A cube of 2 x 2 pixels and 1 channel of [float] values -1, 1, 2, 3. *)
Definition cube_signed : image_t float_t :=
  {| _width := 2; _height := 2; _channels := 1;
     _wavelength := Some (fun z => 500 + 10 * z);
     _data := fun i => f32 (if i =? 0 then (-1)%float else Double.of_Z i) |}.

(** A square that reaches beyond the image on two sides. *)
Definition oversized_square : polygon_t :=
  [ {| _x := 0; _y := 0 |}; {| _x := 1.5; _y := 0 |};
    {| _x := 1.5; _y := 1.5 |}; {| _x := 0; _y := 1.5 |} ]%float.

(** ** Further notions used in the properties *)

(** Two images with the same extents and the same wavelength table. *)
Definition same_geometry {data_t : Type} (img1 img2 : image_t data_t) : Prop :=
  _width img1 = _width img2 /\ _height img1 = _height img2 /\
  _channels img1 = _channels img2 /\ _wavelength img1 = _wavelength img2.

(** A coordinate that is not a number. *)
Definition is_nan (c : float) : Prop := Prim2SF c = S754_nan.

(** The sample [v] selects the bucket [i]. *)
Definition selects_bucket (bucket_of : Z -> float -> float -> float -> option Z)
    (histSize : Z) (lo hi : float) (i : Z) (v : float) : bool :=
  match bucket_of histSize lo hi v with
  | Some idx => idx =? i
  | None => false
  end.

(** The depth code [get_mat_datatype] chooses for an element type it
    supports. *)
Definition depth_of (t : type_traits) : Z :=
  if is_floating_point t then
    (if sizeof t =? 2 then CV_16F else if sizeof t =? 4 then CV_32F else CV_64F)
  else if is_signed t then
    (if sizeof t =? 1 then CV_8S else if sizeof t =? 2 then CV_16S else CV_32S)
  else
    (if sizeof t =? 1 then CV_8U else CV_16U).

(** A rasterisation rule that paints nothing. *)
Definition fill_nothing (cols rows : Z) (vpts : list (list cv_Point)) (y x : Z) : bool :=
  false.

(** [c] holds a value. *)
Definition is_Ok {A : Type} (c : outcome A) : bool :=
  match c with
  | Ok _ => true
  | _ => false
  end.

(** A cube of 2 x 2 pixels and 1 channel of unsigned 16-bit values
    1000, 1001, 1002, 1003. *)
Definition cube_16bit : image_t uint16_t :=
  {| _width := 2; _height := 2; _channels := 1;
     _wavelength := Some (fun z => 500 + 10 * z);
     _data := fun i => u16 (1000 + i) |}.

(** A cube of 2 x 2 pixels and 5 channels of unsigned 8-bit values; the
    element at offset [i] holds [i]. *)
Definition cube_2x2x5 : image_t uint8_t :=
  {| _width := 2; _height := 2; _channels := 5;
     _wavelength := Some (fun z => 500 + 10 * z);
     _data := fun i => u8 i |}.

(** The same cube with the value 7 throughout its last channel. *)
Definition cube_2x2x5_last_changed : image_t uint8_t :=
  {| _width := 2; _height := 2; _channels := 5;
     _wavelength := Some (fun z => 500 + 10 * z);
     _data := fun i => if i mod 5 =? 4 then u8 7 else u8 i |}.

(** The same cube with the value 9 outside its first pixel. *)
Definition cube_2x2x5_rest_changed : image_t uint8_t :=
  {| _width := 2; _height := 2; _channels := 5;
     _wavelength := Some (fun z => 500 + 10 * z);
     _data := fun i => if i <? 5 then u8 i else u8 9 |}.

(** The 4 x 4 x 2 cube without its wavelength table. *)
Definition cube_without_table : image_t uint8_t :=
  {| _width := 4; _height := 4; _channels := 2;
     _wavelength := None;
     _data := fun i => if Z.even i then u8 100 else u8 200 |}.

(** A triangle within the first pixel of a 2 x 2 image. *)
Definition corner_triangle : polygon_t :=
  [ {| _x := 0; _y := 0 |}; {| _x := 0.25; _y := 0 |};
    {| _x := 0.25; _y := 0.25 |} ]%float.

(** * Properties *)

(** ** Loops *)

Lemma for_each_app {A S : Type} (xs ys : list A) (body : A -> S -> outcome S) (s : S) :
  for_each (xs ++ ys) body s = (s' ← for_each xs body s; for_each ys body s').
Proof.
  revert s; induction xs as [|x xs IH]; intros s; simpl; [reflexivity|].
  destruct (body x s); simpl; auto.
Qed.

(** A loop whose every iteration succeeds and keeps an invariant succeeds
    and ends in a state with the invariant. *)
Lemma for_each_invariant {A S : Type} (P : S -> Prop) (xs : list A)
    (body : A -> S -> outcome S) (s : S) :
  P s ->
  (forall x s0, x ∈ xs -> P s0 -> exists s1, body x s0 = Ok s1 /\ P s1) ->
  exists s', for_each xs body s = Ok s' /\ P s'.
Proof.
  revert s; induction xs as [|x xs IH]; intros s Hs Hbody; simpl.
  - eauto.
  - destruct (Hbody x s) as (s1 & -> & Hs1); [left | assumption |]; simpl.
    apply IH; [assumption|].
    intros y s0 Hy; apply Hbody; now right.
Qed.

Lemma range_S (n : nat) : range (Z.of_nat (S n)) = range (Z.of_nat n) ++ [Z.of_nat n].
Proof. unfold range; rewrite seqZ_S; reflexivity. Qed.

Lemma elem_of_range (n z : Z) : z ∈ range n <-> 0 <= z < n.
Proof. unfold range; rewrite elem_of_seqZ; lia. Qed.

(** A loop [for (z = 0; z < n; z++) v[z] = g(z)] over a vector of [n]
    entries leaves [g(0), ..., g(n-1)]. *)
Lemma for_each_assign {A : Type} (g : Z -> A) (body : Z -> list A -> outcome (list A))
    (n : Z) (v : list A) :
  0 <= n ->
  length v = Z.to_nat n ->
  (forall z l, 0 <= z < n -> body z l = Ok (<[Z.to_nat z := g z]> l)) ->
  for_each (range n) body v = Ok (g <$> range n).
Proof.
  intros Hn Hlen Hbody.
  assert (Hk : forall k, (k <= Z.to_nat n)%nat ->
            for_each (range (Z.of_nat k)) body v
            = Ok ((g <$> range (Z.of_nat k)) ++ drop k v)).
  { induction k as [|k IH]; intros Hle.
    - simpl. now rewrite drop_0.
    - rewrite range_S, for_each_app, IH by lia. simpl.
      rewrite Hbody by lia. f_equal.
      rewrite fmap_app, <- app_assoc. simpl.
      rewrite Nat2Z.id.
      assert (Hl : length (g <$> range (Z.of_nat k)) = k)
        by (unfold range; rewrite length_fmap, length_seqZ; lia).
      rewrite insert_app_r_alt by lia.
      rewrite Hl, Nat.sub_diag.
      destruct (drop k v) as [|a rest] eqn:Hd.
      + apply (f_equal length) in Hd. rewrite length_drop in Hd. simpl in Hd. lia.
      + simpl. f_equal. f_equal.
        change (S k) with (1 + k)%nat. rewrite Nat.add_comm, <- drop_drop, Hd.
        reflexivity. }
  specialize (Hk (Z.to_nat n) (Nat.le_refl _)).
  rewrite Z2Nat.id in Hk by assumption.
  rewrite Hk, drop_ge by lia. now rewrite app_nil_r.
Qed.

(** ** Comparisons of doubles *)

Lemma SFleb_not_SFltb (a b : spec_float) : SFleb a b = true -> SFltb b a = false.
Proof.
  unfold SFleb, SFltb.
  destruct a as [sa|sa| |sa ma ea], b as [sb|sb| |sb mb eb]; simpl;
    try destruct sa; try destruct sb; simpl; try congruence.
  all: rewrite (Z.compare_antisym ea eb).
  all: destruct (ea ?= eb); simpl; try congruence.
  all: change (PosDef.Pos.compare_cont Eq mb ma) with (Pos.compare mb ma);
       change (PosDef.Pos.compare_cont Eq ma mb) with (Pos.compare ma mb);
       rewrite (Pos.compare_antisym ma mb);
       destruct (Pos.compare ma mb); simpl; congruence.
Qed.

Lemma leb_not_ltb (a b : float) : (a <=? b)%float = true -> (b <? a)%float = false.
Proof. rewrite leb_spec, ltb_spec. apply SFleb_not_SFltb. Qed.

Ltac compare_cases :=
  repeat match goal with
         | H : context [Z.compare ?a ?b] |- _ =>
             destruct (Z.compare_spec a b); simpl in H; try discriminate H; try lia
         | |- context [Z.compare ?a ?b] =>
             destruct (Z.compare_spec a b); simpl; try reflexivity; try lia
         | H : context [Pos.compare ?a ?b] |- _ =>
             destruct (Pos.compare_spec a b); simpl in H; try discriminate H; try lia
         | |- context [Pos.compare ?a ?b] =>
             destruct (Pos.compare_spec a b); simpl; try reflexivity; try lia
         end.

Ltac float_order :=
  unfold SFltb;
  repeat match goal with
         | f : spec_float |- _ => destruct f as [[|]|[|]| |[|] ? ?]
         end;
  simpl; try congruence;
  change (PosDef.Pos.compare_cont Eq) with Pos.compare;
  intros; compare_cases; subst; try lia; try congruence.

Lemma SFltb_trans (a b c : spec_float) :
  SFltb a b = true -> SFltb b c = true -> SFltb a c = true.
Proof. float_order. Qed.

Lemma SFltb_negtrans (a b c : spec_float) :
  b <> S754_nan -> SFltb a b = false -> SFltb b c = false -> SFltb a c = false.
Proof. float_order. Qed.

Lemma SFltb_irrefl (a : spec_float) : SFltb a a = false.
Proof. float_order. Qed.

(** The running maximum over the values [f i]: no value seen exceeds the
    result, and the result is the start or a value seen. *)
Lemma running_max_nan (f : Z -> float) (indices : list Z) (m0 : float) :
  Prim2SF m0 = S754_nan ->
  fold_left (fun m i => running_max m (f i)) indices m0 = m0.
Proof.
  intros Hnan. induction indices as [|i indices IH]; [reflexivity|].
  cbn [fold_left].
  change (running_max m0 (f i)) with (if (m0 <? f i)%float then f i else m0).
  rewrite ltb_spec, Hnan. simpl. exact IH.
Qed.

Lemma running_max_upper_bound (f : Z -> float) (indices : list Z) (m0 : float) :
  (fold_left (fun m i => running_max m (f i)) indices m0 <? m0)%float = false
  /\ forall i, i ∈ indices ->
       (fold_left (fun m i => running_max m (f i)) indices m0 <? f i)%float = false.
Proof.
  revert m0. induction indices as [|i indices IH]; intros m0; cbn [fold_left].
  - split; [rewrite ltb_spec; apply SFltb_irrefl | intros i Hi; inversion Hi].
  - change (running_max m0 (f i)) with (if (m0 <? f i)%float then f i else m0).
    destruct (m0 <? f i)%float eqn:Hcmp.
    + destruct (IH (f i)) as [Hr Hrest]. split.
      * destruct (_ <? m0)%float eqn:Hlt; [|reflexivity].
        rewrite ltb_spec in Hlt, Hcmp, Hr.
        rewrite (SFltb_trans _ _ _ Hlt Hcmp) in Hr. discriminate.
      * intros j Hj. apply elem_of_cons in Hj as [-> | Hj]; auto.
    + destruct (IH m0) as [Hr Hrest]. split; [exact Hr|].
      intros j Hj. apply elem_of_cons in Hj as [-> | Hj]; auto.
      destruct (Prim2SF m0) eqn:Hm0;
        try (rewrite ltb_spec in Hcmp, Hr; rewrite ltb_spec;
             apply (SFltb_negtrans _ (Prim2SF m0));
             [rewrite Hm0; discriminate | assumption | assumption]).
      rewrite running_max_nan by assumption.
      rewrite ltb_spec, Hm0. reflexivity.
Qed.

Lemma running_max_attained (f : Z -> float) (indices : list Z) (m0 : float) :
  fold_left (fun m i => running_max m (f i)) indices m0 = m0
  \/ exists i, i ∈ indices
               /\ fold_left (fun m i => running_max m (f i)) indices m0 = f i.
Proof.
  revert m0. induction indices as [|i indices IH]; intros m0; cbn [fold_left].
  - now left.
  - change (running_max m0 (f i)) with (if (m0 <? f i)%float then f i else m0).
    destruct (m0 <? f i)%float.
    + destruct (IH (f i)) as [-> | (j & Hj & ->)].
      * right. exists i. split; [left | reflexivity].
      * right. exists j. split; [now right | reflexivity].
    + destruct (IH m0) as [-> | (j & Hj & ->)].
      * now left.
      * right. exists j. split; [now right | reflexivity].
Qed.

Lemma out_of_range_false (pt : point_t) :
  in_unit_interval (_x pt) -> in_unit_interval (_y pt) -> out_of_range pt = false.
Proof.
  intros [Hx0 Hx1] [Hy0 Hy1]. unfold out_of_range.
  now rewrite (leb_not_ltb _ _ Hx0), (leb_not_ltb _ _ Hx1),
              (leb_not_ltb _ _ Hy0), (leb_not_ltb _ _ Hy1).
Qed.

Lemma out_of_range_true (pt : point_t) :
  outside_unit_interval (_x pt) \/ outside_unit_interval (_y pt) -> out_of_range pt = true.
Proof.
  unfold out_of_range, outside_unit_interval.
  intros [[->| ->]|[->| ->]]; simpl; rewrite ?orb_true_r; reflexivity.
Qed.

(** ** The type mapper *)

(** C7: [get_mat_datatype] fails with [std::invalid_argument] exactly when the
    channel count is below 1 or above 511 or the byte width is not one the
    element category supports (unsigned: 1, 2; signed: 1, 2, 4; floating
    point: 2, 4, 8); in every other case it returns a descriptor. *)
Theorem get_mat_datatype_fails_exactly_when (t : type_traits) (channel_count : Z) :
  (fails_with_invalid_argument (get_mat_datatype t channel_count) <->
   (channel_count < 1 \/ channel_count > 511 \/
    ~ supported_width (category_of t) (sizeof t)))
  /\ ((1 <= channel_count <= 511 /\ supported_width (category_of t) (sizeof t)) ->
      exists descriptor, get_mat_datatype t channel_count = Ok descriptor).
Proof.
  destruct t as [fp sg sz].
  unfold fails_with_invalid_argument, get_mat_datatype, category_of, supported_width.
  simpl.
  destruct (Z.ltb_spec channel_count 1) as [Hlo|Hlo];
    [ split; [ split; [ intros _; lia | intros _; eauto ] | lia ] | ].
  destruct (Z.ltb_spec 511 channel_count) as [Hhi|Hhi]; simpl;
    [ split; [ split; [ intros _; lia | intros _; eauto ] | lia ] | ].
  destruct fp, sg; simpl;
    repeat match goal with
           | |- context [match ?p with _ => _ end] => destruct p
           end;
    (split; [ split; [ intros [what Hw]; try discriminate Hw; right; right; lia
                     | intros Hc; try (exfalso; lia); eauto ]
            | intros [_ Hs]; try (exfalso; lia); eauto ]).
Qed.

Lemma get_mat_datatype_fails_exactly_when_witness :
  exists descriptor, get_mat_datatype (traits (data_t := uint16_t)) 3 = Ok descriptor.
Proof.
  apply (proj2 (get_mat_datatype_fails_exactly_when (traits (data_t := uint16_t)) 3)).
  split; [lia | simpl; right; reflexivity].
Defined.

(** ** The degenerate regions *)

Section Spectrum_properties.

Variable fill_region : Z -> Z -> list (list cv_Point) -> Z -> Z -> bool.
Context {data_t : Type} `{data_type data_t}.

Lemma single_point_loop (img : image_t data_t) (pt : point_t) (table : Z -> Z) :
  0 <= _channels img ->
  _wavelength img = Some table ->
  for_each (range (_channels img)) (set_point_value img pt) (sentinel_spectrum img)
  = Ok ((fun z =>
           {| wavelength := table z;
              value := to_double
                         (_data img
                            (offset img
                               (Double.round (_x pt * Double.of_Z (_width img - 1))%float)
                               (Double.round (_y pt * Double.of_Z (_height img - 1))%float)
                               z));
              std := 0%float |}) <$> range (_channels img)).
Proof.
  intros HC Hwl.
  apply for_each_assign.
  - assumption.
  - unfold sentinel_spectrum. now rewrite length_replicate.
  - intros z l _. unfold set_point_value, read_wavelength, offset.
    rewrite Hwl. reflexivity.
Qed.

End Spectrum_properties.

(** ** The accumulation over the mask *)

Lemma for_each_fmap {A B S : Type} (f : A -> B) (l : list A) (body : B -> S -> outcome S)
    (s : S) :
  for_each (f <$> l) body s = for_each l (fun a => body (f a)) s.
Proof.
  revert s; induction l as [|a l IH]; intros s; simpl; [reflexivity|].
  destruct (body (f a) s); simpl; auto.
Qed.

Lemma for_each_bind {A B S : Type} (f : A -> list B) (l : list A)
    (body : B -> S -> outcome S) (s : S) :
  for_each (x ← l; f x) body s = for_each l (fun a => for_each (f a) body) s.
Proof.
  revert s; induction l as [|a l IH]; intros s; [reflexivity|].
  rewrite bind_cons, for_each_app. simpl.
  destruct (for_each (f a) body s); simpl; auto.
Qed.

Lemma for_each_ext {A S : Type} (l : list A) (body body' : A -> S -> outcome S) (s : S) :
  (forall a s0, a ∈ l -> body a s0 = body' a s0) ->
  for_each l body s = for_each l body' s.
Proof.
  revert s; induction l as [|a l IH]; intros s Hext; simpl; [reflexivity|].
  rewrite <- Hext by left.
  destruct (body a s); simpl; auto.
  apply IH. intros b s0 Hb. apply Hext. now right.
Qed.

Lemma lookup_total_fmap_range {A : Type} `{Inhabited A} (g : Z -> A) (n z : Z) :
  0 <= z < n -> (g <$> range n) !!! Z.to_nat z = g z.
Proof.
  intros Hz. unfold range.
  apply list_lookup_total_correct.
  rewrite list_lookup_fmap, lookup_seqZ_lt by lia.
  simpl. f_equal. f_equal. lia.
Qed.

Lemma length_fmap_range {A : Type} (g : Z -> A) (n : Z) :
  length (g <$> range n) = Z.to_nat n.
Proof. unfold range. now rewrite length_fmap, length_seqZ. Qed.

Lemma fmap_range_ext {A : Type} (g g' : Z -> A) (n : Z) :
  (forall z, 0 <= z < n -> g z = g' z) -> g <$> range n = g' <$> range n.
Proof.
  intros Hg. apply list_fmap_ext. intros i z Hz.
  apply Hg. apply elem_of_range. eapply list_elem_of_lookup_2; eassumption.
Qed.

Lemma replicate_as_range {A : Type} (a : A) (n : Z) :
  replicate (Z.to_nat n) a = (fun _ => a) <$> range n.
Proof.
  unfold range. rewrite <- (length_seqZ 0 n).
  induction (seqZ 0 n) as [|z l IH]; simpl; [reflexivity|]. now rewrite IH.
Qed.

Lemma insert_after_prefix {A : Type} (pre v : list A) (k : nat) (a : A) :
  length pre = k -> (k < length v)%nat ->
  <[k := a]> (pre ++ drop k v) = (pre ++ [a]) ++ drop (S k) v.
Proof.
  intros Hpre Hk.
  rewrite insert_app_r_alt by lia. rewrite Hpre, Nat.sub_diag, <- app_assoc.
  f_equal.
  destruct (drop k v) as [|b rest] eqn:Hd.
  - apply (f_equal length) in Hd. rewrite length_drop in Hd. simpl in Hd. lia.
  - simpl. f_equal.
    change (S k) with (1 + k)%nat. rewrite Nat.add_comm, <- drop_drop, Hd.
    reflexivity.
Qed.

Lemma lookup_total_after_prefix {A : Type} `{Inhabited A} (pre v : list A) (k : nat) :
  length pre = k -> (pre ++ drop k v) !!! k = v !!! k.
Proof.
  intros Hpre.
  rewrite lookup_total_app_r by lia.
  rewrite Hpre, Nat.sub_diag, lookup_total_drop. f_equal. lia.
Qed.

(** A loop [for (z = 0; z < n; z++) { a[z] = fa(z, a[z]); b[z] = fb(z, b[z]); }]
    over two vectors of [n] entries. *)
Lemma for_each_update2 {A B : Type} `{Inhabited A} `{Inhabited B}
    (fa : Z -> A -> A) (fb : Z -> B -> B)
    (body : Z -> list A * list B -> outcome (list A * list B))
    (n : Z) (va : list A) (vb : list B) :
  0 <= n ->
  length va = Z.to_nat n ->
  length vb = Z.to_nat n ->
  (forall z la lb, 0 <= z < n ->
     body z (la, lb) = Ok (<[Z.to_nat z := fa z (la !!! Z.to_nat z)]> la,
                           <[Z.to_nat z := fb z (lb !!! Z.to_nat z)]> lb)) ->
  for_each (range n) body (va, vb)
  = Ok ((fun z => fa z (va !!! Z.to_nat z)) <$> range n,
        (fun z => fb z (vb !!! Z.to_nat z)) <$> range n).
Proof.
  intros Hn Hla Hlb Hbody.
  assert (Hk : forall k, (k <= Z.to_nat n)%nat ->
            for_each (range (Z.of_nat k)) body (va, vb)
            = Ok (((fun z => fa z (va !!! Z.to_nat z)) <$> range (Z.of_nat k)) ++ drop k va,
                  ((fun z => fb z (vb !!! Z.to_nat z)) <$> range (Z.of_nat k)) ++ drop k vb)).
  { induction k as [|k IH]; intros Hle.
    - simpl. now rewrite !drop_0.
    - rewrite range_S, for_each_app, IH by lia. simpl.
      rewrite Hbody by lia. rewrite Nat2Z.id.
      rewrite !lookup_total_after_prefix by (rewrite length_fmap_range; lia).
      rewrite !insert_after_prefix by (rewrite ?length_fmap_range; lia).
      rewrite !fmap_app. simpl. rewrite Nat2Z.id. reflexivity. }
  specialize (Hk (Z.to_nat n) (Nat.le_refl _)).
  rewrite Z2Nat.id in Hk by assumption.
  rewrite Hk, !drop_ge by lia. now rewrite !app_nil_r.
Qed.

Section Accumulation.

Variable fill_region : Z -> Z -> list (list cv_Point) -> Z -> Z -> bool.
Context {data_t : Type} `{data_type data_t}.

Lemma square_squared (v : data_t) :
  (match square v with Ok _ => true | _ => false end) = true ->
  square v = Ok (squared v).
Proof. unfold squared. destruct (square v); simpl; congruence. Qed.

(** The loop over the channels of one pixel. *)
Lemma add_sample_loop (img : image_t data_t) (x y : Z) (gs gq : Z -> float) :
  0 <= _channels img ->
  products_defined img [(x, y)] = true ->
  for_each (range (_channels img)) (add_sample img x y)
           (gs <$> range (_channels img), gq <$> range (_channels img))
  = Ok ((fun z => (gs z + to_double (_data img (offset img x y z)))%float)
          <$> range (_channels img),
        (fun z => (gq z + squared (_data img (offset img x y z)))%float)
          <$> range (_channels img)).
Proof.
  intros HC Hdef.
  unfold products_defined in Hdef. simpl in Hdef.
  rewrite andb_true_r, forallb_forall in Hdef.
  rewrite (for_each_update2
             (fun z a => (a + to_double (_data img (offset img x y z)))%float)
             (fun z b => (b + squared (_data img (offset img x y z)))%float)).
  - f_equal. f_equal; apply fmap_range_ext; intros z Hz;
      now rewrite lookup_total_fmap_range.
  - assumption.
  - apply length_fmap_range.
  - apply length_fmap_range.
  - intros z la lb Hz. unfold add_sample.
    rewrite square_squared; [reflexivity|].
    apply Hdef. apply list_elem_of_In, elem_of_range. assumption.
Qed.

Lemma visit_pixel_inside (img : image_t data_t) (mask : mask_t) (x y n : Z)
    (gs gq : Z -> float) :
  0 <= _channels img ->
  (128 <? mask y x) = true ->
  products_defined img [(x, y)] = true ->
  visit_pixel img mask x y
              (n, gs <$> range (_channels img), gq <$> range (_channels img))
  = Ok (n + 1,
        (fun z => (gs z + to_double (_data img (offset img x y z)))%float)
          <$> range (_channels img),
        (fun z => (gq z + squared (_data img (offset img x y z)))%float)
          <$> range (_channels img)).
Proof.
  intros HC Hin Hdef. unfold visit_pixel. rewrite Hin.
  now rewrite add_sample_loop.
Qed.

Lemma visit_pixel_outside (img : image_t data_t) (mask : mask_t) (x y : Z) (s : sums_t) :
  (128 <? mask y x) = false -> visit_pixel img mask x y s = Ok s.
Proof. intros Hout. unfold visit_pixel. destruct s as [[n sv] sq]. now rewrite Hout. Qed.

Lemma for_each_cons {A S : Type} (x : A) (xs : list A) (body : A -> S -> outcome S) (s : S) :
  for_each (x :: xs) body s = (s' ← body x s; for_each xs body s').
Proof. reflexivity. Qed.

(** The loops over the pixels, for any list of pixels in place of the
    raster. *)
Lemma visit_pixels (img : image_t data_t) (mask : mask_t) (ps : list (Z * Z))
    (n : Z) (gs gq : Z -> float) :
  0 <= _channels img ->
  products_defined img (List.filter (fun p => 128 <? mask p.2 p.1) ps) = true ->
  for_each ps (fun p => visit_pixel img mask p.1 p.2)
           (n, gs <$> range (_channels img), gq <$> range (_channels img))
  = Ok (n + Z.of_nat (length (List.filter (fun p => 128 <? mask p.2 p.1) ps)),
        (fun z => fold_left
                    (fun acc p => (acc + to_double (_data img (offset img p.1 p.2 z)))%float)
                    (List.filter (fun p => 128 <? mask p.2 p.1) ps) (gs z))
          <$> range (_channels img),
        (fun z => fold_left
                    (fun acc p => (acc + squared (_data img (offset img p.1 p.2 z)))%float)
                    (List.filter (fun p => 128 <? mask p.2 p.1) ps) (gq z))
          <$> range (_channels img)).
Proof.
  intros HC. revert n gs gq.
  induction ps as [|[x y] ps IH]; intros n gs gq Hdef.
  - simpl. do 3 f_equal. lia.
  - rewrite for_each_cons. cbn [List.filter fst snd] in *.
    destruct (128 <? mask y x) eqn:Hin.
    + cbn [products_defined forallb] in Hdef.
      apply andb_prop in Hdef as [Hxy Hrest].
      rewrite visit_pixel_inside; [|assumption|assumption|].
      * change (Ok ?a ≫= ?k) with (k a). cbv beta.
        rewrite IH by exact Hrest.
        cbn [length fold_left fst snd]. do 3 f_equal. lia.
      * unfold products_defined. cbn [forallb]. now rewrite Hxy.
    + rewrite visit_pixel_outside by assumption.
      change (Ok ?a ≫= ?k) with (k a). cbv beta. now apply IH.
Qed.

(** The raster scan visits [pixels img]. *)
Lemma accumulate_as_for_each (img : image_t data_t) (mask : mask_t) :
  accumulate img mask
  = for_each (pixels img) (fun p => visit_pixel img mask p.1 p.2)
             (0, replicate (Z.to_nat (_channels img)) 0%float,
                 replicate (Z.to_nat (_channels img)) 0%float).
Proof.
  unfold accumulate, pixels. rewrite for_each_bind.
  apply for_each_ext. intros x s _. now rewrite for_each_fmap.
Qed.

Lemma accumulate_sums (img : image_t data_t) (mask : mask_t) :
  0 <= _channels img ->
  products_defined img (List.filter (fun p => 128 <? mask p.2 p.1) (pixels img)) = true ->
  accumulate img mask
  = Ok (Z.of_nat (length (List.filter (fun p => 128 <? mask p.2 p.1) (pixels img))),
        channel_sum img (List.filter (fun p => 128 <? mask p.2 p.1) (pixels img))
          <$> range (_channels img),
        channel_sq_sum img (List.filter (fun p => 128 <? mask p.2 p.1) (pixels img))
          <$> range (_channels img)).
Proof.
  intros HC Hdef.
  rewrite accumulate_as_for_each, !replicate_as_range.
  rewrite visit_pixels by assumption. reflexivity.
Qed.

(** The mask of a polygon holds 0 and 255 only, so the test [> 128] of the
    code selects the values above half of the maximum. *)
Lemma polygon_mask_threshold (img : image_t data_t) (poly : polygon_t) (y x : Z) :
  (128 <? polygon_mask fill_region img poly y x)
  = exceeds_half_maximum (polygon_mask fill_region img poly y x).
Proof.
  unfold polygon_mask, fillPoly, Mat_zeros, exceeds_half_maximum.
  destruct (fill_region _ _ _ y x); reflexivity.
Qed.

Lemma inside_pixels_polygon (img : image_t data_t) (poly : polygon_t) :
  List.filter (fun p => 128 <? polygon_mask fill_region img poly p.2 p.1) (pixels img)
  = inside_pixels img (polygon_mask fill_region img poly).
Proof.
  unfold inside_pixels.
  induction (pixels img) as [|p ps IH]; simpl; [reflexivity|].
  now rewrite polygon_mask_threshold, IH.
Qed.

(** The loop that turns the sums into the entries of the result. *)
Lemma set_statistics_loop (img : image_t data_t) (table : Z -> Z) (ps : list (Z * Z)) :
  0 <= _channels img ->
  _wavelength img = Some table ->
  for_each (range (_channels img))
           (set_statistics img (Z.of_nat (length ps),
                                channel_sum img ps <$> range (_channels img),
                                channel_sq_sum img ps <$> range (_channels img)))
           (sentinel_spectrum img)
  = Ok (statistics_of img table ps <$> range (_channels img)).
Proof.
  intros HC Hwl.
  rewrite (for_each_assign
             (fun z => {| wavelength := table z;
                          value := mean_of ((channel_sum img ps <$> range (_channels img))
                                              !!! Z.to_nat z) (Z.of_nat (length ps));
                          std := std_of ((channel_sum img ps <$> range (_channels img))
                                           !!! Z.to_nat z)
                                        ((channel_sq_sum img ps <$> range (_channels img))
                                           !!! Z.to_nat z)
                                        (Z.of_nat (length ps)) |})).
  - f_equal. apply fmap_range_ext. intros z Hz.
    unfold statistics_of. now rewrite !lookup_total_fmap_range.
  - assumption.
  - unfold sentinel_spectrum. now rewrite length_replicate.
  - intros z l _. unfold set_statistics, read_wavelength. rewrite Hwl. reflexivity.
Qed.

(** The polygon case in closed form: where every element product is
    defined, the entry of channel [z] is computed from the sums over the
    pixels whose mask value exceeds half of the maximum. *)
Lemma polygon_spectrum (img : image_t data_t) (poly : polygon_t) (table : Z -> Z) :
  (2 <= length poly)%nat ->
  0 <= _channels img ->
  _wavelength img = Some table ->
  products_defined img (inside_pixels img (polygon_mask fill_region img poly)) = true ->
  get_spectrum_polygon fill_region img poly
  = Ok (statistics_of img table (inside_pixels img (polygon_mask fill_region img poly))
          <$> range (_channels img)).
Proof.
  intros Hlen HC Hwl Hdef.
  destruct poly as [|p0 [|p1 rest]]; simpl in Hlen; try lia.
  unfold get_spectrum_polygon.
  rewrite <- inside_pixels_polygon in *.
  rewrite accumulate_sums by assumption. simpl.
  apply set_statistics_loop; assumption.
Qed.

(** In a cube of 8-bit elements every product is defined. *)
Lemma uint8_products_defined (img8 : image_t uint8_t) (ps : list (Z * Z)) :
  (forall i, 0 <= u8_value (_data img8 i) <= 255) ->
  products_defined img8 ps = true.
Proof.
  intros Hrange. unfold products_defined.
  apply forallb_forall. intros p _. apply forallb_forall. intros z _.
  cbn [square uint8_data]. unfold int_mul, INT_MAX.
  specialize (Hrange (offset img8 p.1 p.2 z)).
  destruct (_ && _) eqn:Hfit; [reflexivity|].
  apply andb_false_iff in Hfit as [Hlo | Hhi];
    [apply Z.leb_gt in Hlo | apply Z.leb_gt in Hhi]; nia.
Qed.

End Accumulation.

(** ** The spectrum of a region *)

(** C4: for every cube, the empty polygon and a single point with a
    coordinate outside [0, 1] both yield, without an error, the same
    Spectrum of [C] entries, each with value -999.0 and std 0.0. *)
Theorem degenerate_region_gives_sentinel
    (fill_region : Z -> Z -> list (list cv_Point) -> Z -> Z -> bool)
    {data_t : Type} `{data_type data_t} (img : image_t data_t) (poly : polygon_t) :
  (poly = [] \/
   exists pt, poly = [pt] /\
              (outside_unit_interval (_x pt) \/ outside_unit_interval (_y pt))) ->
  get_spectrum_polygon fill_region img poly = Ok (sentinel_spectrum img)
  /\ length (sentinel_spectrum img) = Z.to_nat (_channels img)
  /\ Forall (fun entry => value entry = (-999)%float /\ std entry = 0%float)
            (sentinel_spectrum img).
Proof.
  intros Hpoly. split; [|split].
  - destruct Hpoly as [-> | (pt & -> & Hout)]; [reflexivity|].
    unfold get_spectrum_polygon. now rewrite (out_of_range_true pt Hout).
  - unfold sentinel_spectrum. apply length_replicate.
  - unfold sentinel_spectrum. apply Forall_replicate. now split.
Qed.

Lemma degenerate_region_gives_sentinel_witness :
  get_spectrum_polygon fill_box cube_4x4x2 [ {| _x := 1.5%float; _y := 0.5%float |} ]
  = Ok (sentinel_spectrum cube_4x4x2).
Proof.
  apply (degenerate_region_gives_sentinel fill_box cube_4x4x2).
  right. exists {| _x := 1.5%float; _y := 0.5%float |}. split; [reflexivity|].
  left. right. vm_compute. reflexivity.
Defined.



(** C2 (the code differs): a vertex of a polygon reaches [cv::Point] through
    the conversion [double -> int], which discards the fraction.  In an image
    of width and height 4 the vertex (0.5, 0.5) becomes the pixel (1, 1);
    the nearest pixel, which the single point case takes with [std::round],
    is (2, 2). *)
Theorem polygon_vertex_is_truncated :
  transformed_pt cube_4x4x2 [ {| _x := 0.5%float; _y := 0.5%float |} ] = [ (1, 1) ]
  /\ (Double.round (0.5 * Double.of_Z (_width cube_4x4x2 - 1))%float,
      Double.round (0.5 * Double.of_Z (_height cube_4x4x2 - 1))%float) = (2, 2).
Proof. split; vm_compute; reflexivity. Qed.

(** C1 (the code differs): in a cube of 16-bit elements the product
    [loc_val * loc_val] is a product of [int]s.  For the cube whose four
    pixels all hold 65535 and the polygon around the whole image, all four
    pixels are inside the mask and the first product overflows: the
    behaviour is undefined, where the sums of the values and of their squares
    would give mean 65535 and deviation 0. *)
Theorem saturated_uint16_cube_overflows :
  spectrum_preconditions cube_saturated
  /\ inside_pixels cube_saturated (polygon_mask fill_box cube_saturated unit_square)
     = [ (0, 0); (0, 1); (1, 0); (1, 1) ]
  /\ square (_data cube_saturated 0) = Undefined
  /\ get_spectrum_polygon fill_box cube_saturated unit_square = Undefined.
Proof.
  split; [|split; [|split]]; try (vm_compute; reflexivity).
  unfold spectrum_preconditions. simpl. repeat split; try lia. discriminate.
Qed.



(** ** The single-pass deviation in exact arithmetic *)

Lemma sum_R_squared_deviations (xs : list R) (m : R) :
  sum_R ((fun x => ((x - m) * (x - m))%R) <$> xs)
  = (sum_R ((fun x => (x * x)%R) <$> xs) - 2 * m * sum_R xs
     + INR (length xs) * (m * m))%R.
Proof.
  induction xs as [|x xs IH].
  - simpl. ring.
  - change (length (x :: xs)) with (S (length xs)). rewrite S_INR.
    cbn [fmap list_fmap sum_R foldr] in *. unfold sum_R in IH. rewrite IH. ring.
Qed.

(** C6: over the real numbers, for every non-empty sample with mean
    [m = sum(x) / n], the single-pass expression
    [sqrt((sum(x^2) - 2*sum(x)*m)/n + m*m)] of the code equals the population
    standard deviation [sqrt(sum((x - m)^2) / n)]. *)
Theorem single_pass_std_is_population_std (xs : list R) :
  xs <> [] ->
  mean_of (sum_R xs) (Z.of_nat (length xs)) = (sum_R xs / INR (length xs))%R
  /\ std_of (sum_R xs) (sum_R ((fun x => (x * x)%R) <$> xs)) (Z.of_nat (length xs))
     = population_std xs.
Proof.
  intros Hne.
  assert (Hn : INR (length xs) <> 0%R).
  { apply not_0_INR. destruct xs; [congruence | discriminate]. }
  unfold std_of, mean_of, population_std. cbn [f_add f_sub f_mul f_div f_sqrt f_of_Z real_arith].
  rewrite <- INR_IZR_INZ. split; [reflexivity|].
  f_equal. rewrite sum_R_squared_deviations. field. exact Hn.
Qed.

Lemma single_pass_std_is_population_std_witness :
  std_of (sum_R [1; 2; 3]%R) (sum_R ((fun x => (x * x)%R) <$> [1; 2; 3]%R))
         (Z.of_nat (length [1; 2; 3]%R))
  = population_std [1; 2; 3]%R.
Proof.
  apply (single_pass_std_is_population_std [1; 2; 3]%R). discriminate.
Defined.

(** ** The grouping of the channels *)

(** [(int)(double(C) / double(wavelength_bins))] is the integer quotient for
    every channel count the type mapper admits. *)
Lemma quotient_agrees_table :
  forallb (fun C => forallb (quotient_agrees C) (seqZ 1 C)) (seqZ 1 511) = true.
Proof. vm_compute. reflexivity. Qed.

Lemma channels_per_wlbin (C wavelength_bins : Z) :
  1 <= wavelength_bins <= C -> C <= 511 ->
  Double.to_int (Double.of_Z C / Double.of_Z wavelength_bins)%float = C / wavelength_bins.
Proof.
  intros Hwb HC.
  pose proof quotient_agrees_table as Htab.
  rewrite forallb_forall in Htab.
  specialize (Htab C). rewrite forallb_forall in Htab.
  apply Z.eqb_eq. apply Htab; apply list_elem_of_In, elem_of_seqZ; lia.
Qed.

Lemma get_mat_datatype_Ok (t : type_traits) (channel_count descriptor : Z) :
  get_mat_datatype t channel_count = Ok descriptor -> 1 <= channel_count <= 511.
Proof.
  unfold get_mat_datatype.
  destruct (Z.ltb_spec channel_count 1); [discriminate|].
  destruct (Z.ltb_spec 511 channel_count); [discriminate|]. lia.
Qed.

(** A loop that appends [h(0)], ..., [h(n-1)]. *)
Lemma for_each_push_back {A : Type} (h : Z -> A) (body : Z -> list A -> outcome (list A))
    (n : Z) (output : list A) :
  (forall g out, 0 <= g < n -> body g out = Ok (out ++ [h g])) ->
  for_each (range n) body output = Ok (output ++ (h <$> range n)).
Proof.
  intros Hbody.
  destruct (Z.le_gt_cases n 0) as [Hn|Hn].
  - unfold range. rewrite seqZ_nil by assumption. simpl. now rewrite app_nil_r.
  - assert (Hk : forall k, (k <= Z.to_nat n)%nat ->
              for_each (range (Z.of_nat k)) body output
              = Ok (output ++ (h <$> range (Z.of_nat k)))).
    { induction k as [|k IH]; intros Hle.
      - simpl. now rewrite app_nil_r.
      - rewrite range_S, for_each_app, IH by lia. simpl.
        rewrite Hbody by lia. now rewrite fmap_app, app_assoc. }
    specialize (Hk (Z.to_nat n) (Nat.le_refl _)).
    now rewrite Z2Nat.id in Hk by lia.
Qed.

Lemma fmap_lookup_total_range {A : Type} `{Inhabited A} (l : list A) :
  (fun z => l !!! Z.to_nat z) <$> range (Z.of_nat (length l)) = l.
Proof.
  apply list_eq. intros i. unfold range.
  rewrite list_lookup_fmap.
  destruct (decide (i < length l)%nat) as [Hi|Hi].
  - rewrite lookup_seqZ_lt by lia.
    replace (0 + Z.of_nat i) with (Z.of_nat i) by lia.
    cbn [fmap option_fmap option_map]. rewrite Nat2Z.id.
    symmetry. now apply list_lookup_lookup_total_lt.
  - rewrite lookup_seqZ_ge by lia. simpl. symmetry. apply lookup_ge_None. lia.
Qed.

Section Histogram_properties.

Variable bucket_of : Z -> float -> float -> float -> option Z.
Context {data_t : Type} `{data_type data_t}.

(** [minMaxLoc_max] is the maximum of the cube: it is one of the elements
    and no element exceeds it. *)
Lemma minMaxLoc_max_is_maximum (img : image_t data_t) :
  0 < _width img * _height img * _channels img ->
  (exists i, 0 <= i < _width img * _height img * _channels img
             /\ minMaxLoc_max img = to_double (_data img i))
  /\ forall i, 0 <= i < _width img * _height img * _channels img ->
       (minMaxLoc_max img <? to_double (_data img i))%float = false.
Proof.
  intros Htotal. unfold minMaxLoc_max.
  set (total := _width img * _height img * _channels img) in *.
  split.
  - destruct (running_max_attained (fun i => to_double (_data img i))
                (seqZ 1 (total - 1)) (to_double (_data img 0)))
      as [E | (i & Hi & E)].
    + exists 0. split; [lia | exact E].
    + exists i. apply elem_of_seqZ in Hi. split; [lia | exact E].
  - intros i Hi.
    destruct (running_max_upper_bound (fun i => to_double (_data img i))
                (seqZ 1 (total - 1)) (to_double (_data img 0))) as [H0 Hrest].
    destruct (Z.eq_dec i 0) as [-> | Hne]; [exact H0|].
    apply Hrest. apply elem_of_seqZ. lia.
Qed.

(** The loop that copies the counts and sets the labels. *)
Lemma transfer_loop (proc_mode : cuvis_processing_mode_t) (bin_size : float)
    (hist : list Z) :
  for_each (range (Z.of_nat (length hist))) (transfer proc_mode bin_size hist)
           (replicate (Z.to_nat (Z.of_nat (length hist))) 0,
            replicate (Z.to_nat (Z.of_nat (length hist))) 0%float)
  = Ok (hist, bucket_label proc_mode bin_size <$> range (Z.of_nat (length hist))).
Proof.
  rewrite (for_each_update2 (fun z _ => hist !!! Z.to_nat z)
                            (fun z _ => bucket_label proc_mode bin_size z)).
  - now rewrite fmap_lookup_total_range.
  - lia.
  - now rewrite length_replicate.
  - now rewrite length_replicate.
  - intros z la lb _. reflexivity.
Qed.

(** [get_histogram] in closed form, for a channel count and an element
    type the type mapper admits and between 1 and [C] wavelength bins. *)
Lemma get_histogram_groups (img : image_t data_t)
    (histogram_min_size count_bins wavelength_bins : Z) (detect_max_value : bool)
    (proc_mode : cuvis_processing_mode_t) (table : Z -> Z) (descriptor : Z) :
  _wavelength img = Some table ->
  get_mat_datatype traits (_channels img) = Ok descriptor ->
  1 <= wavelength_bins <= _channels img ->
  get_histogram bucket_of img histogram_min_size count_bins wavelength_bins
                detect_max_value proc_mode
  = Ok (histogram_of_group bucket_of img count_bins
          (maximum_value img detect_max_value)
          (maximum_value img detect_max_value / Double.of_Z count_bins)%float
          (_channels img / wavelength_bins) proc_mode table
          <$> range (_channels img / (_channels img / wavelength_bins))).
Proof.
  intros Hwl Hmat Hwb.
  pose proof (get_mat_datatype_Ok _ _ _ Hmat) as HC.
  unfold get_histogram. rewrite Hmat. simpl.
  rewrite channels_per_wlbin by lia.
  assert (Hcpg : 1 <= _channels img / wavelength_bins).
  { apply Z.div_le_lower_bound; lia. }
  unfold int_div.
  destruct (Z.eqb_spec (_channels img / wavelength_bins) 0) as [E|_]; [lia|].
  simpl. rewrite Z.quot_div_nonneg by lia.
  rewrite (for_each_push_back
             (histogram_of_group bucket_of img count_bins
                (maximum_value img detect_max_value)
                (maximum_value img detect_max_value / Double.of_Z count_bins)%float
                (_channels img / wavelength_bins) proc_mode table)); [reflexivity|].
  intros g out _. unfold append_histogram, read_wavelength. rewrite Hwl. simpl.
  rewrite transfer_loop. simpl. unfold histogram_of_group.
  now rewrite Z.quot_div_nonneg by lia.
Qed.

(** ** The counts of a group *)

Lemma sum_insert_increment (l : list Z) (i : nat) :
  (i < length l)%nat ->
  foldr Z.add 0 (<[i := l !!! i + 1]> l) = foldr Z.add 0 l + 1.
Proof.
  revert i; induction l as [|a l IH]; intros i Hi; simpl in Hi; [lia|].
  destruct i as [|i].
  - simpl. lia.
  - change (<[S i := (a :: l) !!! S i + 1]> (a :: l))
      with (a :: <[i := l !!! i + 1]> l).
    simpl. rewrite IH by lia. lia.
Qed.

Lemma sum_replicate_zero (n : nat) : foldr Z.add 0 (replicate n 0) = 0.
Proof. induction n as [|n IH]; simpl; [reflexivity | now rewrite IH]. Qed.

Lemma filter_length_all {A : Type} (f : A -> bool) (l : list A) :
  length (List.filter f l) = length l <-> forallb f l = true.
Proof.
  induction l as [|a l IH]; simpl; [tauto|].
  pose proof (List.filter_length_le f l) as Hle.
  destruct (f a); simpl.
  - rewrite <- IH. lia.
  - split; [lia | discriminate].
Qed.

(** One sample: the vector keeps its length, and its sum grows by one
    exactly when the sample is counted. *)
Lemma count_sample_total (histSize : Z) (lo hi : float) (hist : list Z) (v : float) :
  length hist = Z.to_nat histSize ->
  length (count_sample bucket_of histSize lo hi hist v) = length hist
  /\ foldr Z.add 0 (count_sample bucket_of histSize lo hi hist v)
     = foldr Z.add 0 hist + (if counted bucket_of histSize lo hi v then 1 else 0).
Proof.
  intros Hlen. unfold count_sample, counted.
  destruct (bucket_of histSize lo hi v) as [idx|]; [|split; [reflexivity | lia]].
  destruct ((0 <=? idx) && (idx <? histSize)) eqn:Hin; [|split; [reflexivity | lia]].
  apply andb_prop in Hin as [H0 H1].
  apply Z.leb_le in H0. apply Z.ltb_lt in H1.
  split; [apply length_insert|].
  apply sum_insert_increment. lia.
Qed.

Lemma count_samples_total (histSize : Z) (lo hi : float) (samples : list float)
    (hist : list Z) :
  length hist = Z.to_nat histSize ->
  length (fold_left (count_sample bucket_of histSize lo hi) samples hist) = length hist
  /\ foldr Z.add 0 (fold_left (count_sample bucket_of histSize lo hi) samples hist)
     = foldr Z.add 0 hist
       + Z.of_nat (length (List.filter (counted bucket_of histSize lo hi) samples)).
Proof.
  revert hist; induction samples as [|v samples IH]; intros hist Hlen.
  - simpl. split; [reflexivity | lia].
  - destruct (count_sample_total histSize lo hi hist v Hlen) as [Hl Hs].
    cbn [fold_left List.filter].
    destruct (IH (count_sample bucket_of histSize lo hi hist v)) as [Hl' Hs'];
      [congruence|].
    split; [congruence|].
    rewrite Hs', Hs.
    destruct (counted bucket_of histSize lo hi v); simpl length; lia.
Qed.

(** The passes of [cv::calcHist] over the channels of a group count the
    samples of the group, starting from an empty histogram. *)
Lemma accumulate_passes (img : image_t data_t) (count_bins : Z) (hi : float)
    (img_channels_per_wlbin count : Z) (cs : list Z) (hist : list Z) :
  Forall (fun c => c <> 0) cs ->
  fold_left
    (fun hist c =>
       calcHist bucket_of img (c + count * img_channels_per_wlbin) hist count_bins
                0%float hi (negb (c =? 0)))
    cs hist
  = fold_left (count_sample bucket_of count_bins 0%float hi)
              (c ← cs; channel_samples img (c + count * img_channels_per_wlbin))
              hist.
Proof.
  revert hist; induction cs as [|c cs IH]; intros hist Hcs; [reflexivity|].
  inversion Hcs as [|? ? Hc Hcs']; subst.
  rewrite bind_cons, fold_left_app. cbn [fold_left].
  rewrite IH by assumption. f_equal.
  unfold calcHist. destruct (Z.eqb_spec c 0); [contradiction|]. reflexivity.
Qed.

Lemma accumulate_group_counts (img : image_t data_t) (count_bins : Z) (max_val : float)
    (img_channels_per_wlbin count : Z) :
  1 <= img_channels_per_wlbin ->
  accumulate_group bucket_of img count_bins max_val img_channels_per_wlbin count
  = fold_left (count_sample bucket_of count_bins 0%float (Double.to_float max_val))
              (group_samples img img_channels_per_wlbin count)
              (replicate (Z.to_nat count_bins) 0).
Proof.
  intros Hcpg.
  unfold accumulate_group, group_samples, group_channels, range.
  rewrite seqZ_cons by lia.
  rewrite fmap_cons, bind_cons, fold_left_app. cbn [fold_left].
  rewrite accumulate_passes.
  - f_equal.
    induction (seqZ (Z.succ 0) (Z.pred img_channels_per_wlbin)) as [|c cs IH];
      [reflexivity|].
    now rewrite fmap_cons, !bind_cons, IH.
  - apply Forall_seqZ. intros c Hc. lia.
Qed.

Lemma length_channel_samples (img : image_t data_t) (channel : Z) :
  length (channel_samples img channel) = Z.to_nat (_width img * _height img).
Proof. unfold channel_samples. apply length_fmap_range. Qed.

Lemma length_group_samples (img : image_t data_t) (img_channels_per_wlbin count : Z) :
  0 <= img_channels_per_wlbin ->
  0 <= _width img * _height img ->
  Z.of_nat (length (group_samples img img_channels_per_wlbin count))
  = img_channels_per_wlbin * (_width img * _height img).
Proof.
  intros Hcpg Hwh. unfold group_samples.
  assert (Hl : forall cs : list Z,
             length (channel ← cs; channel_samples img channel)
             = (length cs * Z.to_nat (_width img * _height img))%nat).
  { induction cs as [|c cs IH]; [reflexivity|].
    rewrite bind_cons, length_app, IH, length_channel_samples. simpl. lia. }
  rewrite Hl. unfold group_channels. rewrite length_fmap_range. nia.
Qed.

(** The occurrences of a group add up to the number of its samples that
    have a bucket. *)
Lemma total_occurrence_of_group (img : image_t data_t) (count_bins : Z)
    (max_val bin_size : float) (img_channels_per_wlbin : Z)
    (proc_mode : cuvis_processing_mode_t) (table : Z -> Z) (count : Z) :
  1 <= img_channels_per_wlbin ->
  total_occurrence
    (histogram_of_group bucket_of img count_bins max_val bin_size
       img_channels_per_wlbin proc_mode table count)
  = Z.of_nat
      (length (List.filter
                 (counted bucket_of count_bins 0%float (Double.to_float max_val))
                 (group_samples img img_channels_per_wlbin count))).
Proof.
  intros Hcpg. unfold total_occurrence, histogram_of_group. cbn [h_occurrence].
  rewrite accumulate_group_counts by assumption.
  destruct (count_samples_total count_bins 0%float (Double.to_float max_val)
              (group_samples img img_channels_per_wlbin count)
              (replicate (Z.to_nat count_bins) 0)) as [_ Hs].
  - apply length_replicate.
  - rewrite Hs, sum_replicate_zero. lia.
Qed.

End Histogram_properties.

(** ** The histograms *)








(** ** The scenarios of the specification *)

(** The 4 x 4 x 2 cube under the polygon around the whole image. *)
Example spectrum_of_unit_square :
  get_spectrum_polygon fill_box cube_4x4x2 unit_square
  = Ok [ {| wavelength := 500; value := 100%float; std := 0%float |};
         {| wavelength := 510; value := 200%float; std := 0%float |} ].
Proof. vm_compute. reflexivity. Qed.

(** The same cube, two buckets, two wavelength bins, nominal maximum 255. *)
Example histograms_of_nominal_range :
  get_histogram cv_uniform_bucket cube_4x4x2 0 2 2 false Cube_Raw
  = Ok [ {| h_wavelength := 500; h_count := [0; 127.5]%float; h_occurrence := [16; 0] |};
         {| h_wavelength := 510; h_count := [0; 127.5]%float; h_occurrence := [0; 16] |} ].
Proof. vm_compute. reflexivity. Qed.

(** More wavelength bins than channels: the group size is 0 and the number
    of groups is a division by zero. *)
Example histograms_of_too_many_bins :
  get_histogram cv_uniform_bucket cube_4x4x2 0 2 3 false Cube_Raw = Undefined.
Proof. vm_compute. reflexivity. Qed.

(** * Further properties *)

(** ** Loops, partial correctness *)

(** What every successful iteration keeps, a successful loop keeps. *)
Lemma for_each_preserves {A S : Type} (P : S -> Prop) (xs : list A)
    (body : A -> S -> outcome S) (s s' : S) :
  (forall x s0 s1, x ∈ xs -> P s0 -> body x s0 = Ok s1 -> P s1) ->
  P s -> for_each xs body s = Ok s' -> P s'.
Proof.
  revert s; induction xs as [|x xs IH]; intros s Hbody Hs Hrun; simpl in Hrun.
  - congruence.
  - destruct (body x s) as [s1| |] eqn:Hx; simpl in Hrun; try discriminate.
    apply (IH s1); [|eapply Hbody; [left|exact Hs|exact Hx] |exact Hrun].
    intros y s0 s2 Hy. apply Hbody. now right.
Qed.

(** A loop whose iterations never throw never throws. *)
Lemma for_each_never_throws {A S : Type} (xs : list A) (body : A -> S -> outcome S)
    (s : S) (what : string) :
  (forall x s0 w, body x s0 <> InvalidArgument w) ->
  for_each xs body s <> InvalidArgument what.
Proof.
  intros Hbody. revert s; induction xs as [|x xs IH]; intros s; simpl; [discriminate|].
  destruct (body x s) as [s1|w|] eqn:Hx; simpl.
  - apply IH.
  - now apply Hbody in Hx.
  - discriminate.
Qed.

(** ** The length of a Spectrum *)

(** X1: whatever the region, a Spectrum that [get_spectrum_polygon] returns
    has exactly one entry per channel of the cube. *)
Theorem spectrum_has_one_entry_per_channel
    (fill_region : Z -> Z -> list (list cv_Point) -> Z -> Z -> bool)
    {data_t : Type} `{data_type data_t} (img : image_t data_t) (poly : polygon_t)
    (spectrum : spectrum_t) :
  get_spectrum_polygon fill_region img poly = Ok spectrum ->
  length spectrum = Z.to_nat (_channels img).
Proof.
  unfold get_spectrum_polygon.
  assert (Hres : length (replicate (Z.to_nat (_channels img)) default_spectral_mean)
                 = Z.to_nat (_channels img)) by apply length_replicate.
  destruct (1 <? length poly)%nat.
  - destruct (accumulate img (polygon_mask fill_region img poly)) as [s| |];
      simpl; try discriminate.
    intros Hrun.
    eapply (for_each_preserves (fun l => length l = Z.to_nat (_channels img)));
      [|exact Hres|exact Hrun].
    intros z l l' _ Hl Hstep. unfold set_statistics in Hstep.
    destruct s as [[n sum_v] sq_sum_v].
    destruct (read_wavelength img z); simpl in Hstep; try discriminate.
    injection Hstep as <-. now rewrite length_insert.
  - destruct (length poly =? 1)%nat; [|intros [= <-]; exact Hres].
    destruct poly as [|front rest]; [intros [= <-]; exact Hres|].
    destruct (out_of_range front); [intros [= <-]; exact Hres|].
    intros Hrun.
    eapply (for_each_preserves (fun l => length l = Z.to_nat (_channels img)));
      [|exact Hres|exact Hrun].
    intros z l l' _ Hl Hstep. unfold set_point_value in Hstep.
    destruct (read_wavelength img z); simpl in Hstep; try discriminate.
    injection Hstep as <-. now rewrite length_insert.
Qed.

Lemma spectrum_has_one_entry_per_channel_witness :
  exists spectrum,
    get_spectrum_polygon fill_box cube_4x4x2 unit_square = Ok spectrum
    /\ length spectrum = 2%nat.
Proof.
  eexists. split; [vm_compute; reflexivity|].
  apply (spectrum_has_one_entry_per_channel fill_box cube_4x4x2 unit_square).
  vm_compute. reflexivity.
Defined.

(** ** What the polygon case reads *)

Lemma elem_of_pixels {data_t : Type} (img : image_t data_t) (x y : Z) :
  (x, y) ∈ pixels img <-> (0 <= x < _width img /\ 0 <= y < _height img).
Proof.
  unfold pixels. rewrite list_elem_of_bind. split.
  - intros (x' & Hy & Hx). apply list_elem_of_fmap in Hy as (y' & [= -> ->] & Hy).
    apply elem_of_range in Hx, Hy. lia.
  - intros [Hx Hy]. exists x. split.
    + apply list_elem_of_fmap. exists y. split; [reflexivity|]. now apply elem_of_range.
    + now apply elem_of_range.
Qed.

Lemma length_pixels {data_t : Type} (img : image_t data_t) :
  0 <= _width img -> 0 <= _height img ->
  Z.of_nat (length (pixels img)) = _width img * _height img.
Proof.
  intros HW HH. unfold pixels.
  assert (Hl : forall xs : list Z,
             length (x ← xs; (fun y => (x, y)) <$> range (_height img))
             = (length xs * Z.to_nat (_height img))%nat).
  { induction xs as [|x xs IH]; [reflexivity|].
    rewrite bind_cons, length_app, IH, length_fmap_range. simpl. lia. }
  rewrite Hl. unfold range at 1. rewrite length_seqZ. nia.
Qed.

Lemma elem_of_inside_pixels {data_t : Type} (img : image_t data_t) (mask : mask_t)
    (p : Z * Z) :
  p ∈ inside_pixels img mask
  <-> p ∈ pixels img /\ exceeds_half_maximum (mask p.2 p.1) = true.
Proof. unfold inside_pixels. rewrite !list_elem_of_In. apply filter_In. Qed.

Lemma mixed_radix_bounds (n d q r : Z) :
  0 <= q < n -> 0 <= r < d -> 0 <= q * d + r < n * d.
Proof.
  intros Hq Hr. split; [nia|].
  assert (q * d <= (n - 1) * d) by (apply Z.mul_le_mono_nonneg_r; lia). lia.
Qed.

Lemma mixed_radix_unique (d q r q' r' : Z) :
  0 <= r < d -> 0 <= r' < d -> q * d + r = q' * d + r' -> q = q' /\ r = r'.
Proof.
  intros Hr Hr' Heq.
  assert (q = q').
  { destruct (Z.lt_trichotomy q q') as [Hlt | [-> | Hgt]]; [|reflexivity|]; nia. }
  subst. lia.
Qed.

Lemma offset_within_buffer {data_t : Type} (img : image_t data_t) (x y z : Z) :
  (x, y) ∈ pixels img ->
  z ∈ range (_channels img) ->
  0 <= offset img x y z < _width img * _height img * _channels img.
Proof.
  intros Hp Hz. apply elem_of_pixels in Hp. apply elem_of_range in Hz.
  unfold offset. rewrite (Z.mul_comm (_width img) (_height img)).
  apply mixed_radix_bounds; [apply mixed_radix_bounds|]; lia.
Qed.

(** X2: the element that the loops of the polygon case read for the pixel
    [(x, y)] and the channel [z] lies within the buffer of
    [_width * _height * _channels] elements, and no other pixel and channel of
    the loops read the same element. *)
Theorem polygon_loop_offsets_within_buffer {data_t : Type} (img : image_t data_t)
    (x y z : Z) :
  (x, y) ∈ pixels img ->
  z ∈ range (_channels img) ->
  0 <= offset img x y z < _width img * _height img * _channels img
  /\ forall x' y' z',
       (x', y') ∈ pixels img -> z' ∈ range (_channels img) ->
       offset img x' y' z' = offset img x y z -> x' = x /\ y' = y /\ z' = z.
Proof.
  intros Hp Hz. split; [now apply offset_within_buffer|].
  apply elem_of_pixels in Hp. apply elem_of_range in Hz.
  unfold offset. intros x' y' z' Hp' Hz' Heq.
  apply elem_of_pixels in Hp'. apply elem_of_range in Hz'.
  apply mixed_radix_unique in Heq as [Hxy ->]; [|lia|lia].
  apply mixed_radix_unique in Hxy as [-> ->]; [|lia|lia]. tauto.
Qed.

Lemma polygon_loop_offsets_within_buffer_witness :
  0 <= offset cube_4x4x2 3 3 1 < 32.
Proof.
  apply (polygon_loop_offsets_within_buffer cube_4x4x2 3 3 1).
  - apply elem_of_pixels. simpl. lia.
  - apply elem_of_range. simpl. lia.
Defined.

Section Frame.

Variable fill_region : Z -> Z -> list (list cv_Point) -> Z -> Z -> bool.
Context {data_t : Type} `{data_type data_t}.

Lemma polygon_mask_same_geometry (img1 img2 : image_t data_t) (poly : polygon_t) :
  same_geometry img1 img2 ->
  polygon_mask fill_region img1 poly = polygon_mask fill_region img2 poly.
Proof.
  intros (HW & HH & _). unfold polygon_mask, transformed_pt. now rewrite HW, HH.
Qed.

Lemma accumulate_same_inside (img1 img2 : image_t data_t) (poly : polygon_t) :
  same_geometry img1 img2 ->
  (forall x y z,
      (x, y) ∈ inside_pixels img1 (polygon_mask fill_region img1 poly) ->
      z ∈ range (_channels img1) ->
      _data img1 (offset img1 x y z) = _data img2 (offset img2 x y z)) ->
  accumulate img1 (polygon_mask fill_region img1 poly)
  = accumulate img2 (polygon_mask fill_region img1 poly).
Proof.
  intros (HW & HH & HC & Hwl) Hdata.
  rewrite !accumulate_as_for_each.
  replace (pixels img2) with (pixels img1) by (unfold pixels; now rewrite HW, HH).
  rewrite <- HC.
  apply for_each_ext. intros [x y] [[n sum_v] sq_sum_v] Hp.
  cbn [fst snd]. unfold visit_pixel.
  destruct (128 <? polygon_mask fill_region img1 poly y x) eqn:Hin; [|reflexivity].
  rewrite <- HC. cbv zeta.
  rewrite (for_each_ext _ (add_sample img1 x y) (add_sample img2 x y)); [reflexivity|].
  intros z [sv sq] Hz. unfold add_sample.
  rewrite (Hdata x y z); [reflexivity| |assumption].
  apply elem_of_inside_pixels. split; [assumption|].
  cbn [fst snd]. now rewrite <- (polygon_mask_threshold fill_region).
Qed.

(** X3: in the polygon case the result depends on the cube only through its
    extents, its wavelength table and the elements of the pixels that the mask
    marks: two cubes that agree on these give the same result, the same
    undefined behaviour included. *)
Theorem polygon_case_reads_inside_pixels_only (img1 img2 : image_t data_t)
    (poly : polygon_t) :
  (2 <= length poly)%nat ->
  same_geometry img1 img2 ->
  (forall x y z,
      (x, y) ∈ inside_pixels img1 (polygon_mask fill_region img1 poly) ->
      z ∈ range (_channels img1) ->
      _data img1 (offset img1 x y z) = _data img2 (offset img2 x y z)) ->
  get_spectrum_polygon fill_region img1 poly = get_spectrum_polygon fill_region img2 poly.
Proof.
  intros Hlen Hgeo Hdata.
  destruct poly as [|p0 [|p1 rest]]; simpl in Hlen; try lia.
  unfold get_spectrum_polygon. cbn [length Nat.ltb Nat.leb].
  rewrite <- (polygon_mask_same_geometry img1 img2) by assumption.
  rewrite <- (accumulate_same_inside img1 img2) by assumption.
  destruct Hgeo as (_ & _ & HC & Hwl). rewrite <- HC.
  destruct (accumulate img1 _) as [s| |]; simpl; try reflexivity.
  apply for_each_ext. intros z res _.
  unfold set_statistics, read_wavelength. now rewrite Hwl.
Qed.



(** Products that are defined throughout the buffer are defined at the
    pixels of the mask. *)
Lemma products_defined_within_buffer (img : image_t data_t) (mask : mask_t) :
  (forall i, 0 <= i < _width img * _height img * _channels img ->
             is_Ok (square (_data img i)) = true) ->
  products_defined img (inside_pixels img mask) = true.
Proof.
  intros Hsq. unfold products_defined.
  apply forallb_forall. intros [x y] Hp. apply forallb_forall. intros z Hz.
  apply list_elem_of_In, elem_of_inside_pixels in Hp as [Hp _].
  apply list_elem_of_In in Hz.
  apply (Hsq (offset img x y z)). now apply offset_within_buffer.
Qed.

(** X6: without a wavelength table and with at least one channel,
    [get_spectrum_polygon] returns a Spectrum for the regions that read
    nothing, the empty one and the single point outside [0, 1] x [0, 1], and
    for no other region. *)
Theorem spectrum_without_wavelength_table (img : image_t data_t) (poly : polygon_t) :
  _wavelength img = None ->
  0 < _channels img ->
  is_Ok (get_spectrum_polygon fill_region img poly) = true
  <-> (poly = [] \/ exists pt, poly = [pt] /\ out_of_range pt = true).
Proof.
  intros Hwl HC.
  assert (Hrange : range (_channels img) = 0 :: seqZ 1 (Z.pred (_channels img))).
  { unfold range. now rewrite seqZ_cons by lia. }
  unfold get_spectrum_polygon. rewrite Hrange.
  destruct poly as [|pt [|p1 rest]]; cbn [length Nat.ltb Nat.leb Nat.eqb].
  - split; [now left | reflexivity].
  - destruct (out_of_range pt) eqn:Hout.
    + split; [|reflexivity]. intros _. right. now exists pt.
    + cbn [for_each].
      assert (Hstep : forall z res, set_point_value img pt z res = Undefined).
      { intros z res. unfold set_point_value, read_wavelength. now rewrite Hwl. }
      rewrite Hstep. simpl. split; [discriminate|]. intros [[=] | (pt' & [= <-] & Hout')]. congruence.
  - split; [|intros [[=] | (pt' & [=] & _)]].
    destruct (accumulate img _) as [s| |]; simpl; try discriminate.
    assert (Hstep : forall z res, set_statistics img s z res = Undefined).
    { intros z res. destruct s as [[n sum_v] sq_sum_v].
      unfold set_statistics, read_wavelength. now rewrite Hwl. }
    rewrite Hstep. discriminate.
Qed.

End Frame.

Lemma polygon_case_reads_inside_pixels_only_witness :
  get_spectrum_polygon fill_box cube_2x2x5 corner_triangle
  = get_spectrum_polygon fill_box cube_2x2x5_rest_changed corner_triangle.
Proof.
  apply (polygon_case_reads_inside_pixels_only fill_box cube_2x2x5
           cube_2x2x5_rest_changed corner_triangle).
  - simpl. lia.
  - repeat split.
  - intros x y z Hin Hz.
    assert (E : inside_pixels cube_2x2x5 (polygon_mask fill_box cube_2x2x5 corner_triangle)
                = [(0, 0)]) by (vm_compute; reflexivity).
    rewrite E in Hin. apply list_elem_of_singleton in Hin. injection Hin as -> ->.
    apply elem_of_range in Hz. simpl in Hz. unfold offset. simpl.
    destruct (Z.ltb_spec ((0 * 2 + 0) * 5 + z) 5); [reflexivity | lia].
Defined.



Lemma spectrum_without_wavelength_table_witness :
  is_Ok (get_spectrum_polygon fill_box cube_without_table
           [ {| _x := 2%float; _y := 0.5%float |} ]) = true.
Proof.
  apply (spectrum_without_wavelength_table fill_box cube_without_table).
  - reflexivity.
  - simpl. lia.
  - right. eexists. split; [reflexivity|]. vm_compute. reflexivity.
Defined.





(** ** The range check of the single point *)

Ltac float_order_le :=
  unfold SFltb, SFleb;
  repeat match goal with
         | f : spec_float |- _ => destruct f as [[|]|[|]| |[|] ? ?]
         end;
  simpl; try congruence;
  change (PosDef.Pos.compare_cont Eq) with Pos.compare;
  intros; compare_cases; subst; try lia; try congruence.

Lemma SFltb_false_SFleb (a b : spec_float) :
  a <> S754_nan -> b <> S754_nan -> SFltb b a = false -> SFleb a b = true.
Proof. float_order_le. Qed.

Lemma SFltb_nan_l (b : spec_float) : SFltb S754_nan b = false.
Proof. reflexivity. Qed.

Lemma SFltb_nan_r (a : spec_float) : SFltb a S754_nan = false.
Proof. unfold SFltb. destruct a; reflexivity. Qed.

(** The two comparisons of one coordinate. *)
Lemma coordinate_check (c : float) :
  ((1 <? c)%float = false /\ (c <? 0)%float = false)
  <-> (is_nan c \/ in_unit_interval c).
Proof.
  unfold is_nan, in_unit_interval. rewrite !ltb_spec, !leb_spec. split.
  - intros [H1 H0].
    destruct (Prim2SF c) eqn:Hc; try (now left); right;
      (split; apply SFltb_false_SFleb; try discriminate; assumption).
  - intros [-> | [H0 H1]].
    + split; [apply SFltb_nan_r | apply SFltb_nan_l].
    + split; now apply SFleb_not_SFltb.
Qed.

(** X9: the range check of the single point lets a point through exactly when
    each of its coordinates lies within [0, 1] or is NaN: the four
    comparisons are all false for a NaN. *)
Theorem range_check_accepts_exactly (pt : point_t) :
  out_of_range pt = false
  <-> (is_nan (_x pt) \/ in_unit_interval (_x pt))
      /\ (is_nan (_y pt) \/ in_unit_interval (_y pt)).
Proof.
  rewrite <- !coordinate_check. unfold out_of_range.
  rewrite !orb_false_iff. tauto.
Qed.

(** ** More on the histograms *)

Lemma bind_ext_in {A B : Type} (f g : A -> list B) (l : list A) :
  (forall a, a ∈ l -> f a = g a) -> l ≫= f = l ≫= g.
Proof.
  induction l as [|a l IH]; intros Hfg; [reflexivity|].
  rewrite !bind_cons, Hfg by left. f_equal. apply IH.
  intros b Hb. apply Hfg. now right.
Qed.

Lemma positive_quotient (a b : Z) : 0 < a -> b <> 0 -> 0 < Z.quot a b -> 0 < b.
Proof.
  intros Ha Hb Hq.
  destruct (Z.lt_trichotomy b 0) as [Hneg | [-> | Hpos]]; [|contradiction|assumption].
  exfalso. replace b with (- (- b)) in Hq by lia.
  rewrite Z.quot_opp_r in Hq by lia.
  assert (0 <= Z.quot a (- b)) by (apply Z.quot_pos; lia). lia.
Qed.

Section Histogram_further.

Variable bucket_of : Z -> float -> float -> float -> option Z.
Context {data_t : Type} `{data_type data_t}.

Lemma append_histogram_never_throws (img : image_t data_t) (count_bins : Z)
    (max_val bin_size : float) (cpg : Z) (proc_mode : cuvis_processing_mode_t)
    (count : Z) (output : histogram_vector_t) (what : string) :
  append_histogram bucket_of img count_bins max_val bin_size cpg proc_mode count output
  <> InvalidArgument what.
Proof.
  unfold append_histogram, read_wavelength.
  destruct (_wavelength img); simpl; [|discriminate].
  rewrite transfer_loop. discriminate.
Qed.

(** X10: [get_histogram] throws [std::invalid_argument] exactly when the type
    mapper does, and then with the message of the type mapper: nothing else
    in the function throws it. *)
Theorem get_histogram_throws_exactly_when_type_mapper_does (img : image_t data_t)
    (histogram_min_size count_bins wavelength_bins : Z) (detect_max_value : bool)
    (proc_mode : cuvis_processing_mode_t) (what : string) :
  get_histogram bucket_of img histogram_min_size count_bins wavelength_bins
                detect_max_value proc_mode = InvalidArgument what
  <-> get_mat_datatype traits (_channels img) = InvalidArgument what.
Proof.
  unfold get_histogram.
  destruct (get_mat_datatype traits (_channels img)) as [d|w|]; simpl.
  - split; [|discriminate]. intros Hthrow. exfalso.
    destruct (int_div _ _) as [count| |] eqn:Hdiv; simpl in Hthrow.
    + eapply for_each_never_throws; [|exact Hthrow].
      intros g out w. apply append_histogram_never_throws.
    + unfold int_div in Hdiv. destruct (_ =? 0); discriminate.
    + discriminate.
  - split; intros [= ->]; reflexivity.
  - split; discriminate.
Qed.

Lemma length_accumulate_group (img : image_t data_t) (count_bins : Z) (max_val : float)
    (cpg count : Z) :
  1 <= cpg ->
  length (accumulate_group bucket_of img count_bins max_val cpg count)
  = Z.to_nat count_bins.
Proof.
  intros Hcpg. rewrite accumulate_group_counts by assumption.
  destruct (count_samples_total bucket_of count_bins 0%float (Double.to_float max_val)
              (group_samples img cpg count) (replicate (Z.to_nat count_bins) 0))
    as [Hl _]; [apply length_replicate|].
  now rewrite Hl, length_replicate.
Qed.

(** X11: in every histogram that [get_histogram] returns, the vector of labels
    and the vector of occurrences both have [count_bins] entries, whatever
    the arguments. *)
Theorem histogram_vectors_have_count_bins_entries (img : image_t data_t)
    (histogram_min_size count_bins wavelength_bins : Z) (detect_max_value : bool)
    (proc_mode : cuvis_processing_mode_t) (output : histogram_vector_t) :
  get_histogram bucket_of img histogram_min_size count_bins wavelength_bins
                detect_max_value proc_mode = Ok output ->
  Forall (fun h => length (h_count h) = Z.to_nat count_bins
                   /\ length (h_occurrence h) = Z.to_nat count_bins) output.
Proof.
  unfold get_histogram.
  destruct (get_mat_datatype traits (_channels img)) as [d| |] eqn:Hmat;
    simpl; try discriminate.
  apply get_mat_datatype_Ok in Hmat.
  set (cpg := Double.to_int _).
  unfold int_div. destruct (Z.eqb_spec cpg 0) as [|Hcpg]; simpl; [discriminate|].
  intros Hrun.
  eapply (for_each_preserves
            (Forall (fun h => length (h_count h) = Z.to_nat count_bins
                              /\ length (h_occurrence h) = Z.to_nat count_bins)));
    [|constructor|exact Hrun].
  intros g out out' Hg Hout Hstep.
  apply elem_of_range in Hg.
  assert (1 <= cpg) by (assert (0 < cpg) by (apply (positive_quotient (_channels img)); lia); lia).
  unfold append_histogram in Hstep.
  destruct (read_wavelength img _) as [wl| |]; simpl in Hstep; try discriminate.
  rewrite transfer_loop in Hstep. simpl in Hstep. injection Hstep as <-.
  apply Forall_app. split; [assumption|].
  constructor; [|constructor]. cbn [h_count h_occurrence].
  rewrite length_fmap_range, Nat2Z.id.
  now rewrite length_accumulate_group.
Qed.

(** One sample and one bucket. *)
Lemma count_sample_bucket (histSize : Z) (lo hi : float) (hist : list Z) (v : float)
    (i : Z) :
  length hist = Z.to_nat histSize ->
  0 <= i < histSize ->
  count_sample bucket_of histSize lo hi hist v !!! Z.to_nat i
  = hist !!! Z.to_nat i
    + (if selects_bucket bucket_of histSize lo hi i v then 1 else 0).
Proof.
  intros Hlen Hi. unfold count_sample, selects_bucket.
  destruct (bucket_of histSize lo hi v) as [idx|]; [|lia].
  destruct ((0 <=? idx) && (idx <? histSize)) eqn:Hin.
  - apply andb_prop in Hin as [H0 H1].
    apply Z.leb_le in H0. apply Z.ltb_lt in H1.
    destruct (Z.eqb_spec idx i) as [-> | Hne].
    + rewrite list_lookup_total_insert_eq by lia. reflexivity.
    + rewrite list_lookup_total_insert_ne by lia. lia.
  - destruct (Z.eqb_spec idx i) as [-> | Hne]; [|lia].
    apply andb_false_iff in Hin as [H0 | H1];
      [apply Z.leb_gt in H0 | apply Z.ltb_ge in H1]; lia.
Qed.

Lemma count_samples_bucket (histSize : Z) (lo hi : float) (samples : list float)
    (hist : list Z) (i : Z) :
  length hist = Z.to_nat histSize ->
  0 <= i < histSize ->
  fold_left (count_sample bucket_of histSize lo hi) samples hist !!! Z.to_nat i
  = hist !!! Z.to_nat i
    + Z.of_nat (length (List.filter (selects_bucket bucket_of histSize lo hi i) samples)).
Proof.
  intros Hlen Hi. revert hist Hlen.
  induction samples as [|v samples IH]; intros hist Hlen.
  - simpl. lia.
  - cbn [fold_left List.filter].
    destruct (count_sample_total bucket_of histSize lo hi hist v Hlen) as [Hl _].
    rewrite IH by congruence.
    rewrite count_sample_bucket by assumption.
    destruct (selects_bucket bucket_of histSize lo hi i v); simpl length; lia.
Qed.



(** X14: with the maximum of the element type as the upper bound, the
    histograms do not depend on the channels after the last group: two cubes
    that agree on the channels of the groups give the same histograms. *)
Theorem later_channels_do_not_enter (img1 img2 : image_t data_t)
    (histogram_min_size count_bins wavelength_bins : Z)
    (proc_mode : cuvis_processing_mode_t) (table : Z -> Z) (descriptor : Z) :
  same_geometry img1 img2 ->
  _wavelength img1 = Some table ->
  get_mat_datatype traits (_channels img1) = Ok descriptor ->
  1 <= wavelength_bins <= _channels img1 ->
  let channels_per_group := _channels img1 / wavelength_bins in
  let group_count := _channels img1 / channels_per_group in
  (forall p channel,
      0 <= p < _width img1 * _height img1 ->
      0 <= channel < group_count * channels_per_group ->
      _data img1 (p * _channels img1 + channel) = _data img2 (p * _channels img1 + channel)) ->
  get_histogram bucket_of img1 histogram_min_size count_bins wavelength_bins false proc_mode
  = get_histogram bucket_of img2 histogram_min_size count_bins wavelength_bins false proc_mode.
Proof.
  intros (HW & HH & HC & Hwl2) Hwl Hmat Hwb channels_per_group group_count Hdata.
  pose proof (get_mat_datatype_Ok _ _ _ Hmat) as Hrange.
  assert (Hcpg : 1 <= channels_per_group) by (apply Z.div_le_lower_bound; lia).
  rewrite (get_histogram_groups bucket_of img1 _ _ _ _ _ table descriptor Hwl Hmat Hwb).
  rewrite (get_histogram_groups bucket_of img2 _ _ _ _ _ table descriptor)
    by (rewrite <- ?HC, <- ?Hwl2; assumption).
  rewrite <- HC. fold channels_per_group. fold group_count.
  f_equal. apply fmap_range_ext. intros g Hg.
  unfold histogram_of_group, maximum_value.
  rewrite !accumulate_group_counts by assumption.
  replace (group_samples img2 channels_per_group g)
    with (group_samples img1 channels_per_group g); [reflexivity|].
  unfold group_samples. apply bind_ext_in. intros channel Hch.
  unfold group_channels in Hch.
  apply list_elem_of_fmap in Hch as (c & -> & Hc). apply elem_of_range in Hc.
  unfold channel_samples. rewrite <- HW, <- HH, <- HC.
  apply fmap_range_ext. intros p Hp.
  rewrite Hdata; [reflexivity|assumption|]. nia.
Qed.

(** X15: without a wavelength table [get_histogram] returns nothing: the
    first group already reads the table. *)
Theorem histogram_without_wavelength_table (img : image_t data_t)
    (histogram_min_size count_bins wavelength_bins : Z) (detect_max_value : bool)
    (proc_mode : cuvis_processing_mode_t) (descriptor : Z) :
  _wavelength img = None ->
  get_mat_datatype traits (_channels img) = Ok descriptor ->
  1 <= wavelength_bins <= _channels img ->
  get_histogram bucket_of img histogram_min_size count_bins wavelength_bins
                detect_max_value proc_mode = Undefined.
Proof.
  intros Hwl Hmat Hwb.
  pose proof (get_mat_datatype_Ok _ _ _ Hmat) as HC.
  unfold get_histogram. rewrite Hmat. simpl.
  rewrite channels_per_wlbin by lia.
  assert (Hcpg : 1 <= _channels img / wavelength_bins)
    by (apply Z.div_le_lower_bound; lia).
  unfold int_div.
  destruct (Z.eqb_spec (_channels img / wavelength_bins) 0) as [E|_]; [lia|].
  simpl. rewrite Z.quot_div_nonneg by lia.
  assert (Hcount : 1 <= _channels img / (_channels img / wavelength_bins)).
  { apply Z.div_le_lower_bound; [lia|].
    pose proof (Z.mul_div_le (_channels img) wavelength_bins ltac:(lia)). nia. }
  assert (Hstep : forall max_val bin_size cpg count output,
             append_histogram bucket_of img count_bins max_val bin_size cpg proc_mode
                              count output = Undefined).
  { intros. unfold append_histogram, read_wavelength. now rewrite Hwl. }
  unfold range. rewrite seqZ_cons by lia. cbn [for_each].
  now rewrite Hstep.
Qed.

End Histogram_further.

Lemma histogram_vectors_have_count_bins_entries_witness :
  exists output,
    get_histogram cv_uniform_bucket cube_4x4x2 0 2 2 false Cube_Raw = Ok output
    /\ Forall (fun h => length (h_count h) = 2%nat /\ length (h_occurrence h) = 2%nat)
              output.
Proof.
  eexists. split; [vm_compute; reflexivity|].
  apply (histogram_vectors_have_count_bins_entries cv_uniform_bucket cube_4x4x2
           0 2 2 false Cube_Raw).
  vm_compute. reflexivity.
Defined.



Lemma later_channels_do_not_enter_witness :
  get_histogram cv_uniform_bucket cube_2x2x5 0 4 2 false Cube_Raw
  = get_histogram cv_uniform_bucket cube_2x2x5_last_changed 0 4 2 false Cube_Raw.
Proof.
  apply (later_channels_do_not_enter cv_uniform_bucket cube_2x2x5 cube_2x2x5_last_changed
           0 4 2 Cube_Raw (fun z => 500 + 10 * z) 32).
  - repeat split.
  - reflexivity.
  - vm_compute. reflexivity.
  - simpl. lia.
  - intros p channel Hp Hch.
    change (_channels cube_2x2x5 / (_channels cube_2x2x5 / 2) * (_channels cube_2x2x5 / 2))
      with 4 in Hch.
    change (_channels cube_2x2x5) with 5.
    change (_data cube_2x2x5 (p * 5 + channel)) with (u8 (p * 5 + channel)).
    change (_data cube_2x2x5_last_changed (p * 5 + channel))
      with (if (p * 5 + channel) mod 5 =? 4 then u8 7 else u8 (p * 5 + channel)).
    rewrite Z.add_comm, Z.mod_add, Z.mod_small by lia.
    destruct (Z.eqb_spec channel 4); [lia | reflexivity].
Defined.

Lemma histogram_without_wavelength_table_witness :
  get_histogram cv_uniform_bucket cube_without_table 0 4 2 false Cube_Raw = Undefined.
Proof.
  apply (histogram_without_wavelength_table cv_uniform_bucket cube_without_table
           0 4 2 false Cube_Raw 8).
  - reflexivity.
  - vm_compute. reflexivity.
  - simpl. lia.
Defined.

(** X16: every channel of a group is a channel of the cube, every element that
    the histogram of the group reads for it lies within the buffer, and the
    channel belongs to no other group: no sample is counted twice. *)
Theorem groups_read_disjoint_channels {data_t : Type} (img : image_t data_t)
    (wavelength_bins group_index channel : Z) :
  1 <= wavelength_bins <= _channels img ->
  let channels_per_group := _channels img / wavelength_bins in
  let group_count := _channels img / channels_per_group in
  0 <= group_index < group_count ->
  channel ∈ group_channels channels_per_group group_index ->
  0 <= channel < _channels img
  /\ (forall p, p ∈ range (_width img * _height img) ->
                0 <= p * _channels img + channel
                < _width img * _height img * _channels img)
  /\ (forall other, channel ∈ group_channels channels_per_group other ->
                    other = group_index).
Proof.
  intros Hwb channels_per_group group_count Hg Hch.
  assert (Hcpg : 1 <= channels_per_group) by (apply Z.div_le_lower_bound; lia).
  unfold group_channels in Hch.
  apply list_elem_of_fmap in Hch as (c & -> & Hc). apply elem_of_range in Hc.
  assert (Hused : group_count * channels_per_group <= _channels img).
  { unfold group_count. rewrite Z.mul_comm. apply Z.mul_div_le. lia. }
  assert (Hchannel : 0 <= c + group_index * channels_per_group < _channels img) by nia.
  split; [exact Hchannel|]. split.
  - intros p Hp. apply elem_of_range in Hp.
    apply mixed_radix_bounds; lia.
  - intros other Hother. unfold group_channels in Hother.
    apply list_elem_of_fmap in Hother as (c' & Heq & Hc'). apply elem_of_range in Hc'.
    rewrite (Z.add_comm c), (Z.add_comm c') in Heq.
    apply mixed_radix_unique in Heq as [-> _]; [reflexivity|lia|lia].
Qed.

Lemma groups_read_disjoint_channels_witness :
  0 <= 3 < _channels cube_2x2x5.
Proof.
  apply (groups_read_disjoint_channels cube_2x2x5 2 1 3).
  - simpl. lia.
  - split; vm_compute; congruence.
  - apply list_elem_of_In. vm_compute. right. left. reflexivity.
Defined.

(** ** Exact arithmetic, continued *)

Lemma sum_R_squares_nonneg (xs : list R) (m : R) :
  (0 <= sum_R ((fun x => ((x - m) * (x - m))%R) <$> xs))%R.
Proof.
  unfold sum_R. induction xs as [|x xs IH]; simpl; [lra|].
  apply Rplus_le_le_0_compat; [apply (Rle_0_sqr (x - m)) | exact IH].
Qed.

Lemma sum_R_squares_zero (xs : list R) (m : R) :
  sum_R ((fun x => ((x - m) * (x - m))%R) <$> xs) = 0%R <-> (forall x, x ∈ xs -> x = m).
Proof.
  induction xs as [|x xs IH].
  - split; [intros _ x Hx; inversion Hx | reflexivity].
  - pose proof (Rle_0_sqr (x - m)) as Hsq. unfold Rsqr in Hsq.
    pose proof (sum_R_squares_nonneg xs m) as Hrest.
    change (sum_R ((fun x => ((x - m) * (x - m))%R) <$> x :: xs))
      with ((x - m) * (x - m) + sum_R ((fun x => ((x - m) * (x - m))%R) <$> xs))%R.
    split.
    + intros Hsum.
      assert (Hx : ((x - m) * (x - m) = 0)%R) by lra.
      assert (Hxs : sum_R ((fun x => ((x - m) * (x - m))%R) <$> xs) = 0%R) by lra.
      intros y Hy. apply elem_of_cons in Hy as [-> | Hy].
      * apply Rmult_integral in Hx. lra.
      * now apply IH.
    + intros Hall.
      rewrite (Hall x) by left.
      assert (Hxs : sum_R ((fun x => ((x - m) * (x - m))%R) <$> xs) = 0%R).
      { apply IH. intros y Hy. apply Hall. now right. }
      rewrite Hxs. lra.
Qed.

(** X17: over the real numbers the single-pass formula of the standard
    deviation gives 0 exactly when every sample equals the mean, that is
    when the region is constant in the channel. *)
Theorem exact_std_is_zero_exactly_for_constant_samples (xs : list R) :
  xs <> [] ->
  std_of (sum_R xs) (sum_R ((fun x => (x * x)%R) <$> xs)) (Z.of_nat (length xs)) = 0%R
  <-> (forall x, x ∈ xs -> x = mean_of (sum_R xs) (Z.of_nat (length xs))).
Proof.
  intros Hne.
  assert (Hn : (0 < INR (length xs))%R).
  { apply lt_0_INR. destruct xs; [congruence | simpl; lia]. }
  set (m := mean_of (sum_R xs) (Z.of_nat (length xs))).
  rewrite <- (sum_R_squares_zero xs m).
  assert (Hrad : (f_add (f_div (f_sub (sum_R ((fun x => (x * x)%R) <$> xs))
                                      (f_mul (f_mul (f_of_Z 2) (sum_R xs)) m))
                               (f_of_Z (Z.of_nat (length xs))))
                        (f_mul m m)
                  = sum_R ((fun x => ((x - m) * (x - m))%R) <$> xs) / INR (length xs))%R).
  { rewrite sum_R_squared_deviations. subst m. unfold mean_of.
    cbn [f_add f_sub f_mul f_div f_of_Z real_arith].
    rewrite <- INR_IZR_INZ. field. lra. }
  unfold std_of. fold m. cbn [f_sqrt real_arith]. rewrite Hrad.
  pose proof (sum_R_squares_nonneg xs m) as Hnonneg.
  split.
  - intros Hsqrt. apply sqrt_eq_0 in Hsqrt.
    + apply (Rmult_eq_compat_r (INR (length xs))) in Hsqrt.
      unfold Rdiv in Hsqrt. rewrite Rmult_assoc, Rinv_l, Rmult_1_r, Rmult_0_l in Hsqrt by lra.
      exact Hsqrt.
    + apply Rmult_le_pos; [assumption|]. left. now apply Rinv_0_lt_compat.
  - intros ->. unfold Rdiv. rewrite Rmult_0_l. apply sqrt_0.
Qed.

Lemma exact_std_is_zero_exactly_for_constant_samples_witness :
  std_of (sum_R [2; 2; 2]%R) (sum_R ((fun x => (x * x)%R) <$> [2; 2; 2]%R))
         (Z.of_nat (length [2; 2; 2]%R)) = 0%R.
Proof.
  apply (exact_std_is_zero_exactly_for_constant_samples [2; 2; 2]%R).
  - discriminate.
  - intros x Hx.
    assert (Hmean : mean_of (sum_R [2; 2; 2]%R) (Z.of_nat (length [2; 2; 2]%R)) = 2%R).
    { unfold mean_of, sum_R. simpl. change (Z.of_nat 3) with 3. lra. }
    rewrite Hmean.
    repeat (apply elem_of_cons in Hx as [-> | Hx]; [reflexivity|]).
    inversion Hx.
Defined.

(** ** The descriptor *)

Lemma CV_MAKETYPE_value (depth cn : Z) :
  0 <= depth < 8 -> CV_MAKETYPE depth cn = depth + 8 * (cn - 1).
Proof.
  intros Hd. unfold CV_MAKETYPE, CV_DEPTH_MAX, CV_CN_SHIFT.
  rewrite (Z.shiftl_mul_pow2 (cn - 1)) by lia.
  assert (Hcases : depth = 0 \/ depth = 1 \/ depth = 2 \/ depth = 3 \/
                   depth = 4 \/ depth = 5 \/ depth = 6 \/ depth = 7) by lia.
  change (Z.shiftl 1 3 - 1) with 7. change (2 ^ 3) with 8.
  destruct Hcases as [-> | [-> | [-> | [-> | [-> | [-> | [-> | ->]]]]]]];
    match goal with
    | |- context [Z.land ?a ?b] =>
        let v := eval vm_compute in (Z.land a b) in change (Z.land a b) with v
    end; lia.
Qed.

Lemma get_mat_datatype_value (t : type_traits) (channel_count descriptor : Z) :
  get_mat_datatype t channel_count = Ok descriptor ->
  descriptor = depth_of t + 8 * (channel_count - 1)
  /\ supported_width (category_of t) (sizeof t).
Proof.
  destruct t as [fp sg sz].
  remember (depth_of {| is_floating_point := fp; is_signed := sg; sizeof := sz |})
    as depth eqn:Hdepth.
  unfold get_mat_datatype, category_of, supported_width. simpl.
  destruct ((channel_count <? 1) || (511 <? channel_count)); [discriminate|].
  destruct fp, sg; simpl;
    repeat match goal with
           | |- context [match ?p with _ => _ end] => destruct p
           end;
    try discriminate;
    intros [= <-];
    rewrite CV_MAKETYPE_value
      by (unfold CV_8U, CV_8S, CV_16U, CV_16S, CV_32S, CV_32F, CV_64F, CV_16F; lia);
    subst depth; (split; [reflexivity | lia]).
Qed.

(** X18: the descriptor that the type mapper returns determines its
    arguments: two calls that return the same descriptor had the same channel
    count, the same category of element type and the same element size. *)
Theorem descriptor_determines_type_and_channels (t1 t2 : type_traits)
    (c1 c2 descriptor : Z) :
  get_mat_datatype t1 c1 = Ok descriptor ->
  get_mat_datatype t2 c2 = Ok descriptor ->
  c1 = c2 /\ category_of t1 = category_of t2 /\ sizeof t1 = sizeof t2.
Proof.
  intros H1 H2.
  apply get_mat_datatype_value in H1 as [E1 S1].
  apply get_mat_datatype_value in H2 as [E2 S2].
  destruct t1 as [fp1 sg1 sz1], t2 as [fp2 sg2 sz2].
  unfold depth_of, category_of, supported_width in *. simpl in *.
  unfold CV_8U, CV_8S, CV_16U, CV_16S, CV_32S, CV_32F, CV_64F, CV_16F in *.
  destruct fp1, sg1, fp2, sg2; simpl in *;
    repeat match goal with
           | H : _ \/ _ |- _ => destruct H
           end; subst; simpl in *; repeat split; try lia; try reflexivity.
Qed.

Lemma descriptor_determines_type_and_channels_witness :
  3 = 3
  /\ category_of (@traits uint8_t _) = category_of (@traits uint8_t _)
  /\ sizeof (@traits uint8_t _) = sizeof (@traits uint8_t _).
Proof.
  apply (descriptor_determines_type_and_channels (@traits uint8_t _) (@traits uint8_t _)
           3 3 16).
  - vm_compute. reflexivity.
  - vm_compute. reflexivity.
Defined.
